(** * model-catalog-bridge: the import-location server

    A shallow embedding of [pkg/cmd/server/location/server/server.go]: the
    in-memory catalog store ([content]), the model-card store
    ([modelcards]), the gin handlers that read and write them, and the
    start-up hydration [loadFromStorage].

    Go strings are byte strings and are modelled by [string]; a [[]byte]
    that may be [nil] is an [option (list byte)]; maps are stdpp [gmap]s.
    The catalog store has type [map[string]*ImportLocation]: its values are
    pointers, and [handleCatalogDelete] writes through the pointer it finds.
    The cells are therefore kept in an explicit [heap], and the map holds
    addresses into it. *)

From Stdlib Require Import ZArith Ascii String Strings.Byte.
From stdpp Require Import gmap strings list fin_maps relations.

Open Scope Z_scope.
Open Scope string_scope.

(** ** Constants of [net/http] used by the handlers *)

Module http.
Definition StatusOK : Z := 200.
Definition StatusCreated : Z := 201.
Definition StatusNotModified : Z := 304.
Definition StatusBadRequest : Z := 400.
Definition StatusNotFound : Z := 404.
Definition StatusInternalServerError : Z := 500.
End http.

(** ** Go's [int] and [strings.Split] *)

(** [int] is taken to be 64 bits wide; [wrap_int] is the two's-complement
    wrap-around of an arithmetic result. *)
Definition wrap_int (z : Z) : Z := (z + 2 ^ 63) mod 2 ^ 64 - 2 ^ 63.

(** [strings.Split(s, sep)] for a one-byte separator: the pieces of [s]
    between the occurrences of [sep]; always at least one piece. *)
Fixpoint Split (s : string) (sep : ascii) : list string :=
  match s with
  | EmptyString => [EmptyString]
  | String c rest =>
      if Ascii.eqb c sep then EmptyString :: Split rest sep
      else match Split rest sep with
           | [] => [String c EmptyString]
           | w :: ws => String c w :: ws
           end
  end.

(** [strings.Join(segs, sep)] for a one-byte separator. *)
Fixpoint Join (segs : list string) (sep : ascii) : string :=
  match segs with
  | [] => EmptyString
  | w :: ws =>
      match ws with
      | [] => w
      | _ :: _ => w ++ String sep (Join ws sep)
      end
  end.

(** Whether the byte [c] occurs in [s]. *)
Fixpoint occurs (c : ascii) (s : string) : bool :=
  match s with
  | EmptyString => false
  | String a rest => Ascii.eqb a c || occurs c rest
  end.

(** [segs[n]] on a slice already checked to be long enough. *)
Definition seg (segs : list string) (n : nat) : string := nth n segs EmptyString.

(** The double-quote byte, for building JSON text. *)
Definition dquote : string := String (ascii_of_nat 34) EmptyString.

(** ** Data model *)

(** [type ImportLocation struct { content []byte }] *)
Record ImportLocation := mkImportLocation {
  il_content : option (list byte)
}.

(** [type modelCardMetadata struct] *)
Record modelCardMetadata := mkModelCard {
  mc_content : string;
  lastUpdateTimeSinceEpoch : string;
  updateCount : Z;
  needToUpdate : bool
}.

(** [type ModelURI struct], every field tagged [binding:"required"]. *)
Record ModelURI := mkModelURI {
  Model : string;
  Version : string;
  Format : string
}.

(** [rest.PostBody], as the upsert handler uses it. The declaration lives in
    package [rest]; the four fields below are the ones read here. *)
Record PostBody := mkPostBody {
  Body : option (list byte);
  ModelCardKey : string;
  ModelCard : string;
  LastUpdateTimeSinceEpoch : string
}.

(** [type DicoveryResponse struct { Uris []string }]; a [nil] slice is
    [None]. *)
Record DicoveryResponse := mkDiscovery {
  Uris : option (list string)
}.

(** What a handler leaves in the gin context: the status, the body written
    by [c.Data] with its content-type argument, and the errors of
    [c.Errors]. *)
Record Response := mkResponse {
  Status : Z;
  Data : option (string * list byte);
  Errors : list string
}.

Definition respond (code : Z) : Response := mkResponse code None [].
Definition respondErr (code : Z) (msg : string) : Response :=
  mkResponse code None [msg].
Definition respondData (code : Z) (ctype : string) (data : list byte) : Response :=
  mkResponse code (Some (ctype, data)) [].

(** The record [mcm] after [n] further reads that served it. *)
Definition served (mcm : modelCardMetadata) (n : nat) : modelCardMetadata :=
  mkModelCard (mc_content mcm) (lastUpdateTimeSinceEpoch mcm)
    (updateCount mcm + Z.of_nat n) false.

(** The response of a read that serves [mcm]. *)
Definition fresh (mcm : modelCardMetadata) : Response :=
  respondData http.StatusOK "Content-Type: text/markdown"
    (list_byte_of_string (mc_content mcm)).

(** Addresses of [ImportLocation] cells. *)
Abbreviation ptr := nat (only parsing).

(** Results of the storage REST client: [(rc, msg, err, payload)]. *)
Record StorageReply (A : Type) := mkReply {
  rc : Z;
  msg : string;
  err : option string;
  payload : A
}.
Arguments mkReply {A} _ _ _ _.
Arguments rc {A} _.
Arguments msg {A} _.
Arguments err {A} _.
Arguments payload {A} _.

(** How a call of [loadFromStorage] ends: it returns [(bool, error)], or it
    blocks for ever in [i.lock.Lock()], or it panics in [i.router.GET]. *)
Inductive LoadOutcome :=
| Returned (ok : bool) (e : option string)
| Blocked
| Panicked.

(** [types.NormalizerFormat], [util.BuildImportKeyAndURI] and the string
    encoder of [encoding/json] are declared outside this package; the
    development is parametric in them. *)
Class External := {
  NormalizerFormat : Type;
  BuildImportKeyAndURI : string -> string -> NormalizerFormat -> string * string;
  json_string : string -> string
}.

(** The storage REST client, as [loadFromStorage] calls it. *)
Record BridgeStorageRESTClient := mkStorage {
  ListModelsKeys : StorageReply (list string);
  FetchModel : string -> StorageReply (option (list byte))
}.

(** The requests the router dispatches to the handlers below. *)
Inductive Request :=
| GetDiscovery
| PostUpsert (key : string) (bound : string + PostBody)
| DeleteCatalog (key : string)
| GetItem (model : ModelURI)
| GetModelCard (key : string).

Section Server.

Context `{External}.

(** [type ImportLocationServer struct]. [router] keeps the routes that
    [loadFromStorage] registers, each bound to the cell whose method value
    it was given. [heap] holds the [ImportLocation] cells the pointers of
    [content] and [router] refer to. The [storage] client is passed to
    [loadFromStorage] as an argument; every handler runs between
    [lock.Lock()] and the deferred [lock.Unlock()] and is one atomic
    transition. *)
Record ImportLocationServer := mkServer {
  router : list (string * ptr);
  content : gmap string ptr;
  modelcards : gmap string modelCardMetadata;
  format : NormalizerFormat;
  heap : list ImportLocation
}.

Definition set_content (i : ImportLocationServer) (c : gmap string ptr) :=
  mkServer (router i) c (modelcards i) (format i) (heap i).
Definition set_modelcards (i : ImportLocationServer) (m : gmap string modelCardMetadata) :=
  mkServer (router i) (content i) m (format i) (heap i).
Definition set_heap (i : ImportLocationServer) (h : list ImportLocation) :=
  mkServer (router i) (content i) (modelcards i) (format i) h.
Definition set_router (i : ImportLocationServer) (r : list (string * ptr)) :=
  mkServer r (content i) (modelcards i) (format i) (heap i).

(** [&ImportLocation{content: c}]: a fresh cell at the end of the heap. *)
Definition alloc (i : ImportLocationServer) (c : option (list byte))
  : ImportLocationServer * ptr :=
  (set_heap i (heap i ++ [mkImportLocation c])%list, length (heap i)).

(** [NewImportLocationServer]: both maps empty. *)
Definition NewImportLocationServer (nf : NormalizerFormat) : ImportLocationServer :=
  mkServer [] ∅ ∅ nf [].

(** The entry a URI resolves to, through the map and the heap. *)
Definition entry (i : ImportLocationServer) (uri : string) : option ImportLocation :=
  content i !! uri ≫= λ p, heap i !! p.

(** ** Handlers *)

(** [func (i *ImportLocation) handleCatalogInfoGet] *)
Definition handleCatalogInfoGet (il : ImportLocation) : Response :=
  match il_content il with
  | None => respond http.StatusNotFound
  | Some bytes => respondData http.StatusOK "Content-Type: application/json" bytes
  end.

(** [c.ShouldBindUri(&model)] succeeds when every required field is
    non-empty. *)
Definition ShouldBindUri (m : ModelURI) : bool :=
  negb (String.eqb (Model m) EmptyString)
  && negb (String.eqb (Version m) EmptyString)
  && negb (String.eqb (Format m) EmptyString).

(** The handler registered for [/:model/:version/:format] in
    [NewImportLocationServer]; it uses the server's [format], not the
    format of the path. [None] is a nil-pointer dereference. How gin
    chooses between this route and a route registered by
    [loadFromStorage] for the same path is not part of this package. *)
Definition itemGet (i : ImportLocationServer) (model : ModelURI) : option Response :=
  if negb (ShouldBindUri model) then Some (respond http.StatusBadRequest)
  else
    let uriString := snd (BuildImportKeyAndURI (Model model) (Version model) (format i)) in
    match content i !! uriString with
    | None => Some (respond http.StatusNotFound)
    | Some p => handleCatalogInfoGet <$> heap i !! p
    end.

(** The [range i.content] loop of [handleCatalogDiscoveryGet], run over the
    entries in the order [order] in which the map yields them. *)
Fixpoint discoveryLoop (h : list ImportLocation) (order : list (string * ptr))
    (d : DicoveryResponse) : option DicoveryResponse :=
  match order with
  | [] => Some d
  | (uri, p) :: rest =>
      match h !! p with
      | None => None
      | Some il =>
          match il_content il with
          | Some _ => discoveryLoop h rest (mkDiscovery (Some (default [] (Uris d) ++ [uri])%list))
          | None => discoveryLoop h rest d
          end
      end
  end.

Fixpoint json_join (l : list string) : string :=
  match l with
  | [] => EmptyString
  | [x] => x
  | x :: rest => x ++ "," ++ json_join rest
  end.

(** The text [json.Marshal] writes for a [*DicoveryResponse]: a nil slice
    is written [null], any other as an array of encoded strings. *)
Definition json_encode (d : DicoveryResponse) : list byte :=
  let arr := match Uris d with
             | None => "null"
             | Some l => "[" ++ json_join (json_string <$> l) ++ "]"
             end in
  list_byte_of_string ("{" ++ dquote ++ "uris" ++ dquote ++ ":" ++ arr ++ "}").

(** [json.Marshal(d)]: marshalling this type cannot fail, so the result is
    always [inr]. *)
Definition json_Marshal (d : DicoveryResponse) : string + list byte :=
  inr (json_encode d).

(** [handleCatalogDiscoveryGet], for the iteration order [order]. *)
Definition handleCatalogDiscoveryGet (i : ImportLocationServer)
    (order : list (string * ptr)) : option Response :=
  match discoveryLoop (heap i) order (mkDiscovery None) with
  | None => None
  | Some d =>
      match json_Marshal d with
      | inl e => Some (respondErr http.StatusInternalServerError e)
      | inr bytes => Some (respondData http.StatusOK "Content-Type: application/json" bytes)
      end
  end.

(** The model-card half of [handleCatalogUpsertPost] (lines 219-234). *)
Definition upsertModelCard (cards : gmap string modelCardMetadata) (postBody : PostBody)
  : gmap string modelCardMetadata :=
  let mcm :=
    match cards !! ModelCardKey postBody with
    | None =>
        mkModelCard (ModelCard postBody) (LastUpdateTimeSinceEpoch postBody) 0 true
    | Some mcm =>
        if negb (String.eqb (lastUpdateTimeSinceEpoch mcm) (LastUpdateTimeSinceEpoch postBody))
        then mkModelCard (mc_content mcm) (LastUpdateTimeSinceEpoch postBody) 0 true
        else mcm
    end in
  <[ModelCardKey postBody := mcm]> cards.

(** [handleCatalogUpsertPost]. [key] is [c.Query("key")]; [bound] is the
    outcome of [c.BindJSON(&postBody)]. When the body does not bind,
    [c.BindJSON] has itself aborted the context with status 400 and
    recorded the error, and the handler records it a second time. *)
Definition handleCatalogUpsertPost (u : ImportLocationServer) (key : string)
    (bound : string + PostBody) : ImportLocationServer * Response :=
  if (String.length key =? 0)%nat
  then (u, respondErr http.StatusBadRequest "need a 'key' parameter")
  else
    match bound with
    | inl e => (u, mkResponse http.StatusBadRequest None [e; e])
    | inr postBody =>
        let segs := Split key "_" in
        if (length segs <? 2)%nat
        then (u, respondErr http.StatusBadRequest ("bad key format: " ++ key))
        else
          let uriString := snd (BuildImportKeyAndURI (seg segs 0) (seg segs 1) (format u)) in
          let '(u1, il) := alloc u (Body postBody) in
          let u2 := set_content u1 (<[uriString := il]> (content u1)) in
          let u3 := set_modelcards u2 (upsertModelCard (modelcards u2) postBody) in
          (u3, respond http.StatusCreated)
    end.

(** [handleCatalogDelete]. [None] is a write through a nil pointer. *)
Definition handleCatalogDelete (u : ImportLocationServer) (key : string)
  : option (ImportLocationServer * Response) :=
  if (String.length key =? 0)%nat
  then Some (u, respondErr http.StatusBadRequest "need a 'key' parameter")
  else
    let segs := Split key "_" in
    if (length segs <? 2)%nat
    then Some (u, respondErr http.StatusBadRequest ("bad key format: " ++ key))
    else
      let uri := snd (BuildImportKeyAndURI (seg segs 0) (seg segs 1) (format u)) in
      match content u !! uri with
      | Some il =>
          match heap u !! il with
          | Some _ => Some (set_heap u (<[il := mkImportLocation None]> (heap u)),
                            respond http.StatusOK)
          | None => None
          end
      | None => Some (u, respond http.StatusOK)
      end.

(** [handleModelCardGet]. [key] is [c.Query(util.KeyQueryParam)]. *)
Definition handleModelCardGet (i : ImportLocationServer) (key : string)
  : ImportLocationServer * Response :=
  match modelcards i !! key with
  | None => (i, respond http.StatusNotFound)
  | Some content0 =>
      if negb (needToUpdate content0) && (10 <? updateCount content0)%Z
      then (i, respond http.StatusNotModified)
      else
        let content1 := mkModelCard (mc_content content0) (lastUpdateTimeSinceEpoch content0)
                          (wrap_int (updateCount content0 + 1)) false in
        (set_modelcards i (<[key := content1]> (modelcards i)),
         respondData http.StatusOK "Content-Type: text/markdown"
           (list_byte_of_string (mc_content content1)))
  end.

(** ** Hydration *)

(** The [for _, key := range keys] loop of [loadFromStorage]. [held] says
    that an earlier iteration of this call has taken [i.lock]: its
    [Unlock] is deferred to the return of the function, so the mutex is
    still locked when a later iteration reaches [i.lock.Lock()], and that
    call never returns. The third component lists the keys handed to
    [FetchModel], in order. The cell of line 107 is allocated where it is
    stored (line 120); before that nothing refers to it. [i.router.GET]
    panics when the path has a handler already, which is after the map has
    been written; [router] holds the paths hydration has registered, and
    the paths [NewImportLocationServer] registers are taken to differ from
    every derived URI. *)
Fixpoint loadLoop (st : BridgeStorageRESTClient) (held : bool)
    (i : ImportLocationServer) (keys : list string)
  : ImportLocationServer * LoadOutcome * list string :=
  match keys with
  | [] => (i, Returned true None, [])
  | key :: rest =>
      let segs := Split key "_" in
      if (length segs <? 2)%nat then loadLoop st held i rest
      else
        let r := FetchModel st key in
        if bool_decide (is_Some (err r)) then (i, Returned false None, [key])
        else if negb (rc r =? http.StatusOK)%Z then (i, Returned false None, [key])
        else
          let uri := snd (BuildImportKeyAndURI (seg segs 0) (seg segs 1) (format i)) in
          if held then (i, Blocked, [key])
          else
            let '(i1, il) := alloc i (payload r) in
            let i2 := set_content i1 (<[uri := il]> (content i1)) in
            if bool_decide (uri ∈ (router i2).*1) then (i2, Panicked, [key])
            else
              let i3 := set_router i2 (router i2 ++ [(uri, il)])%list in
              let '(i4, out, fetched) := loadLoop st true i3 rest in
              (i4, out, key :: fetched)
  end.

(** [loadFromStorage], entered with [i.lock] free. *)
Definition loadFromStorage (st : BridgeStorageRESTClient) (i : ImportLocationServer)
  : ImportLocationServer * LoadOutcome * list string :=
  let r := ListModelsKeys st in
  if bool_decide (is_Some (err r)) then (i, Returned false None, [])
  else if negb (rc r =? http.StatusOK)%Z then (i, Returned false None, [])
  else loadLoop st false i (payload r).

(** ** The server as a transition system *)

(** [serve i req i' r]: handling [req] in state [i] leaves state [i'] and
    response [r]. Go leaves the iteration order of a map unspecified, so
    discovery may see the entries in any order. *)
Inductive serve (i : ImportLocationServer)
  : Request -> ImportLocationServer -> Response -> Prop :=
| serve_discovery order r :
    order ≡ₚ map_to_list (content i) ->
    handleCatalogDiscoveryGet i order = Some r ->
    serve i GetDiscovery i r
| serve_upsert key bound :
    serve i (PostUpsert key bound)
      (fst (handleCatalogUpsertPost i key bound))
      (snd (handleCatalogUpsertPost i key bound))
| serve_delete key i' r :
    handleCatalogDelete i key = Some (i', r) ->
    serve i (DeleteCatalog key) i' r
| serve_item model r :
    itemGet i model = Some r ->
    serve i (GetItem model) i r
| serve_modelcard key :
    serve i (GetModelCard key)
      (fst (handleModelCardGet i key))
      (snd (handleModelCardGet i key)).

(** A run: a sequence of requests served one after the other. *)
Inductive run : ImportLocationServer -> list Request -> ImportLocationServer -> Prop :=
| run_nil i : run i [] i
| run_cons i req i1 r reqs i2 :
    serve i req i1 r -> run i1 reqs i2 -> run i (req :: reqs) i2.

(** One step of the server's life: a request, or a hydration. *)
Definition step (i i' : ImportLocationServer) : Prop :=
  (exists req r, serve i req i' r) \/
  (exists st out fetched, loadFromStorage st i = (i', out, fetched)).

(** The states the server can be in. *)
Definition reachable (i : ImportLocationServer) : Prop :=
  exists nf, rtc step (NewImportLocationServer nf) i.

(** The URI an upsert or a delete with query parameter [key] works on. *)
Definition keyURI (nf : NormalizerFormat) (key : string) : string :=
  snd (BuildImportKeyAndURI (seg (Split key "_") 0) (seg (Split key "_") 1) nf).

(** The URI a request may write to in the catalog store, if any. *)
Definition target (nf : NormalizerFormat) (req : Request) : option string :=
  match req with
  | PostUpsert key _ => Some (keyURI nf key)
  | DeleteCatalog key => Some (keyURI nf key)
  | _ => None
  end.

(** [n] consecutive calls of [handleModelCardGet] for [key]: the final
    state and the responses, first to last. *)
Fixpoint reads (n : nat) (i : ImportLocationServer) (key : string)
  : ImportLocationServer * list Response :=
  match n with
  | O => (i, [])
  | S n' =>
      let '(i1, r) := handleModelCardGet i key in
      let '(i2, rs) := reads n' i1 key in
      (i2, r :: rs)
  end.

(** ** Invariants *)

(** Every entry of the catalog map points to a live cell of its own. *)
Definition wf (i : ImportLocationServer) : Prop :=
  (forall uri p, content i !! uri = Some p -> (p < length (heap i))%nat) /\
  (forall u1 u2 p, content i !! u1 = Some p -> content i !! u2 = Some p -> u1 = u2).

(** A record with unseen changes has not been served yet, and no record
    has been served more than eleven times since its last change. *)
Definition cards_ok (cards : gmap string modelCardMetadata) : Prop :=
  forall key mcm, cards !! key = Some mcm ->
    (needToUpdate mcm = true -> updateCount mcm = 0%Z) /\
    (0 <= updateCount mcm <= 11)%Z.

(** Whether [FetchModel] hands over the document of [key]: no error and
    status 200, the two tests of lines 109 and 113. *)
Definition fetched_ok (st : BridgeStorageRESTClient) (key : string) : bool :=
  negb (bool_decide (is_Some (err (FetchModel st key))))
  && (rc (FetchModel st key) =? http.StatusOK)%Z.

(** The server once lines 117 to 121 have stored and registered the
    document fetched for [key]. *)
Definition stored (st : BridgeStorageRESTClient) (i : ImportLocationServer)
    (key : string) : ImportLocationServer :=
  mkServer (router i ++ [(keyURI (format i) key, length (heap i))])%list
    (<[keyURI (format i) key := length (heap i)]> (content i))
    (modelcards i) (format i)
    (heap i ++ [mkImportLocation (payload (FetchModel st key))])%list.

(** The server when line 120 has stored the document fetched for [key]
    and line 121 has panicked: the map is written, the router is not. *)
Definition written (st : BridgeStorageRESTClient) (i : ImportLocationServer)
    (key : string) : ImportLocationServer :=
  mkServer (router i)
    (<[keyURI (format i) key := length (heap i)]> (content i))
    (modelcards i) (format i)
    (heap i ++ [mkImportLocation (payload (FetchModel st key))])%list.

(** A step after which [i.lock] is free: a request, or a hydration that
    returned. *)
Definition step_returned (i i' : ImportLocationServer) : Prop :=
  (exists req r, serve i req i' r) \/
  (exists st ok fetched, loadFromStorage st i = (i', Returned ok None, fetched)).

(** The states in which the server takes requests: no call of
    [loadFromStorage] is blocked holding the lock, and none has
    panicked. *)
Definition serving (i : ImportLocationServer) : Prop :=
  exists nf, rtc step_returned (NewImportLocationServer nf) i.

(** Every registered route is bound to a live cell. *)
Definition routes_ok (i : ImportLocationServer) : Prop :=
  forall uri p, (uri, p) ∈ router i -> (p < length (heap i))%nat.

(** A URI is present when it resolves to an entry that has a payload. *)
Definition present (i : ImportLocationServer) (uri : string) : Prop :=
  exists bytes, entry i uri = Some (mkImportLocation (Some bytes)).

End Server.

(** ** An instance for concrete runs

    [server_test.go] expects the key [mnist_v1] to be stored under
    [/mnist/v1/catalog-info.yaml]; this instance lays URIs out that way and
    encodes a JSON string by putting it between double quotes. *)
Definition test_BuildImportKeyAndURI (seg1 seg2 : string) (nf : string)
  : string * string :=
  (seg1 ++ "_" ++ seg2, "/" ++ seg1 ++ "/" ++ seg2 ++ "/catalog-info.yaml").

Definition test_json_string (s : string) : string := dquote ++ s ++ dquote.

Definition test_external : External :=
  {| NormalizerFormat := string;
     BuildImportKeyAndURI := test_BuildImportKeyAndURI;
     json_string := test_json_string |}.

(** A fresh server of the test instance. *)
Definition test_server : @ImportLocationServer test_external :=
  @NewImportLocationServer test_external EmptyString.

(** A parsed upsert body. *)
Definition test_body (doc : option string) (card token : string) : PostBody :=
  mkPostBody (list_byte_of_string <$> doc) "foo" card token.

(** The test server after [POST key=mnist_v1] with document ["create"],
    card key [foo], card text ["card"] and token ["t1"]. *)
Definition test_server1 : @ImportLocationServer test_external :=
  fst (@handleCatalogUpsertPost test_external test_server "mnist_v1"
         (inr (test_body (Some "create") "card" "t1"))).

(** The card that upsert stores under [foo]. *)
Definition test_card : modelCardMetadata := mkModelCard "card" "t1" 0 true.

(** The test server after [POST key=mnist_v1] with a body that parses but
    carries no document bytes. *)
Definition test_server_nil : @ImportLocationServer test_external :=
  fst (@handleCatalogUpsertPost test_external test_server "mnist_v1"
         (inr (test_body None "card" "t1"))).

(** The body [{"uris":null}] and the body [{"uris":[]}]. *)
Definition uris_null : list byte :=
  list_byte_of_string ("{" ++ dquote ++ "uris" ++ dquote ++ ":null}").
Definition uris_empty_array : list byte :=
  list_byte_of_string ("{" ++ dquote ++ "uris" ++ dquote ++ ":[]}").

(** A backing store that lists three keys and has the documents of the
    first two; the fetch of the third fails. *)
Definition test_storage : BridgeStorageRESTClient :=
  mkStorage
    (mkReply http.StatusOK EmptyString None ["mnist_v1"; "mnist_v2"; "mnist_v3"])
    (fun key =>
       if String.eqb key "mnist_v3"
       then mkReply 0 EmptyString (Some "connection refused") None
       else mkReply http.StatusOK EmptyString None (Some (list_byte_of_string key))).

(** The test server holding the document of [mnist_v1] only, as a
    hydration stores and registers it. *)
Definition test_server_hydrated1 : @ImportLocationServer test_external :=
  @mkServer test_external
    [("/mnist/v1/catalog-info.yaml", 0%nat)]
    (<["/mnist/v1/catalog-info.yaml" := 0%nat]> ∅)
    ∅ EmptyString
    [mkImportLocation (Some (list_byte_of_string "mnist_v1"))].

(** [test_server1] after [DELETE key=mnist_v1]. *)
Definition test_server1_deleted : @ImportLocationServer test_external :=
  @set_heap test_external test_server1 [mkImportLocation None].

(** [test_server1] after a second upsert, [POST key=mnist_v2]. *)
Definition test_server2 : @ImportLocationServer test_external :=
  fst (@handleCatalogUpsertPost test_external test_server1 "mnist_v2"
         (inr (test_body (Some "second") "card" "t1"))).


(** * Properties *)

(** ** Arithmetic and keys *)

Lemma wrap_int_small (z : Z) :
  (- 2 ^ 63 <= z < 2 ^ 63)%Z -> wrap_int z = z.
Proof.
  intros Hz. unfold wrap_int.
  rewrite Z.mod_small by lia. lia.
Qed.

Lemma Split_nonempty (s : string) (sep : ascii) : Split s sep <> [].
Proof.
  destruct s as [|c s]; simpl; [discriminate|].
  destruct (Ascii.eqb c sep); [discriminate|].
  destruct (Split s sep); discriminate.
Qed.

(** A key with two segments is not the empty string. *)
Lemma wellformed_key_nonempty (key : string) :
  (2 <= length (Split key "_"))%nat -> (String.length key =? 0)%nat = false.
Proof.
  destruct key as [|c key]; simpl; [lia|reflexivity].
Qed.

Section Facts.

Context `{External}.

(** ** The handlers on well-formed requests *)

Lemma upsert_wellformed (u : ImportLocationServer) (key : string) (postBody : PostBody) :
  (2 <= length (Split key "_"))%nat ->
  handleCatalogUpsertPost u key (inr postBody) =
    (mkServer (router u)
       (<[keyURI (format u) key := length (heap u)]> (content u))
       (upsertModelCard (modelcards u) postBody)
       (format u)
       (heap u ++ [mkImportLocation (Body postBody)])%list,
     respond http.StatusCreated).
Proof.
  intros Hk. unfold handleCatalogUpsertPost.
  rewrite (wellformed_key_nonempty key Hk).
  destruct (length (Split key "_") <? 2)%nat eqn:E.
  - apply Nat.ltb_lt in E. lia.
  - reflexivity.
Qed.

Lemma upsert_rejected_state (u : ImportLocationServer) (key : string)
    (bound : string + PostBody) :
  Status (snd (handleCatalogUpsertPost u key bound)) <> http.StatusCreated ->
  fst (handleCatalogUpsertPost u key bound) = u.
Proof.
  unfold handleCatalogUpsertPost.
  destruct (String.length key =? 0)%nat; [reflexivity|].
  destruct bound as [e|pb]; [reflexivity|].
  destruct (length (Split key "_") <? 2)%nat; [reflexivity|].
  simpl. intros Hs. contradiction Hs. reflexivity.
Qed.

Lemma delete_wellformed (u : ImportLocationServer) (key : string) :
  (2 <= length (Split key "_"))%nat ->
  handleCatalogDelete u key =
    match content u !! keyURI (format u) key with
    | Some il =>
        match heap u !! il with
        | Some _ => Some (set_heap u (<[il := mkImportLocation None]> (heap u)),
                          respond http.StatusOK)
        | None => None
        end
    | None => Some (u, respond http.StatusOK)
    end.
Proof.
  intros Hk. unfold handleCatalogDelete.
  rewrite (wellformed_key_nonempty key Hk).
  destruct (length (Split key "_") <? 2)%nat eqn:E.
  - apply Nat.ltb_lt in E. lia.
  - reflexivity.
Qed.

(** A delete never touches the map, the cards, the routes or the format;
    it can only overwrite one cell of the heap. *)
Lemma delete_frame (u u' : ImportLocationServer) (key : string) (r : Response) :
  handleCatalogDelete u key = Some (u', r) ->
  u' = u \/
  (exists il, content u !! keyURI (format u) key = Some il /\
              (il < length (heap u))%nat /\
              u' = set_heap u (<[il := mkImportLocation None]> (heap u))).
Proof.
  unfold handleCatalogDelete.
  destruct (String.length key =? 0)%nat; [intros [= <- _]; by left|].
  destruct (length (Split key "_") <? 2)%nat; [intros [= <- _]; by left|].
  fold (keyURI (format u) key).
  destruct (content u !! keyURI (format u) key) as [il|] eqn:Hc;
    [|intros [= <- _]; by left].
  destruct (heap u !! il) as [c|] eqn:Hh; [|discriminate].
  intros [= <- _]. right. exists il. split; [done|]. split; [|done].
  by eapply lookup_lt_Some.
Qed.

End Facts.

(** ** The model-card store *)

Section ModelCards.

Context `{External}.

Lemma read_serves (i : ImportLocationServer) (key : string) (mcm : modelCardMetadata) :
  modelcards i !! key = Some mcm ->
  (0 <= updateCount mcm <= 10)%Z ->
  handleModelCardGet i key =
    (set_modelcards i (<[key := served mcm 1]> (modelcards i)), fresh mcm).
Proof.
  intros Hm Hc. unfold handleModelCardGet. rewrite Hm.
  destruct (10 <? updateCount mcm)%Z eqn:E; [apply Z.ltb_lt in E; lia|].
  rewrite andb_false_r. rewrite wrap_int_small by lia. reflexivity.
Qed.

Lemma read_throttled (i : ImportLocationServer) (key : string) (mcm : modelCardMetadata) :
  modelcards i !! key = Some mcm ->
  needToUpdate mcm = false ->
  (10 < updateCount mcm)%Z ->
  handleModelCardGet i key = (i, respond http.StatusNotModified).
Proof.
  intros Hm Hd Hc. unfold handleModelCardGet. rewrite Hm, Hd.
  apply Z.ltb_lt in Hc. rewrite Hc. reflexivity.
Qed.

Lemma set_modelcards_id (i : ImportLocationServer) :
  set_modelcards i (modelcards i) = i.
Proof. by destruct i. Qed.

Lemma set_modelcards_twice (i : ImportLocationServer) (m1 m2 : gmap string modelCardMetadata) :
  set_modelcards (set_modelcards i m1) m2 = set_modelcards i m2.
Proof. reflexivity. Qed.

(** [n] reads that stay within the eleven allowed ones all serve the
    content, and leave the record [served mcm n]. *)
Lemma reads_serve (n : nat) :
  forall (i : ImportLocationServer) (key : string) (mcm : modelCardMetadata),
    modelcards i !! key = Some mcm ->
    (0 <= updateCount mcm)%Z ->
    (updateCount mcm + Z.of_nat n <= 11)%Z ->
    reads n i key =
      (match n with
       | O => i
       | S _ => set_modelcards i (<[key := served mcm n]> (modelcards i))
       end,
       replicate n (fresh mcm)).
Proof.
  induction n as [|n IH]; intros i key mcm Hm H0 Hn; [reflexivity|].
  cbn [reads]. rewrite (read_serves i key mcm Hm) by lia.
  set (i1 := set_modelcards i (<[key := served mcm 1]> (modelcards i))).
  assert (H1 : modelcards i1 !! key = Some (served mcm 1))
    by apply lookup_insert_eq.
  rewrite (IH i1 key (served mcm 1) H1) by (simpl; lia).
  cbn [replicate]. f_equal.
  destruct n as [|n]; [reflexivity|].
  subst i1. rewrite set_modelcards_twice. cbn [modelcards set_modelcards].
  rewrite insert_insert_eq. do 2 f_equal.
  unfold served. cbn [mc_content lastUpdateTimeSinceEpoch updateCount].
  f_equal. lia.
Qed.

(** Once a record is throttled, reads change nothing. *)
Lemma reads_throttled (n : nat) :
  forall (i : ImportLocationServer) (key : string) (mcm : modelCardMetadata),
    modelcards i !! key = Some mcm ->
    needToUpdate mcm = false ->
    (10 < updateCount mcm)%Z ->
    reads n i key = (i, replicate n (respond http.StatusNotModified)).
Proof.
  induction n as [|n IH]; intros i key mcm Hm Hd Hc; [reflexivity|].
  cbn [reads]. rewrite (read_throttled i key mcm Hm Hd Hc).
  by rewrite (IH i key mcm Hm Hd Hc).
Qed.

Lemma reads_app (a b : nat) (i : ImportLocationServer) (key : string) :
  reads (a + b) i key =
    (fst (reads b (fst (reads a i key)) key),
     (snd (reads a i key) ++ snd (reads b (fst (reads a i key)) key))%list).
Proof.
  revert i. induction a as [|a IH]; intros i.
  - simpl. by destruct (reads b i key).
  - cbn [Nat.add reads]. destruct (handleModelCardGet i key) as [i1 r].
    rewrite IH. destruct (reads a i1 key) as [i2 rs]. reflexivity.
Qed.

(** The record found after any number of reads of a fresh record. *)
Lemma reads_record (n : nat) (i : ImportLocationServer) (key : string)
    (mcm : modelCardMetadata) :
  modelcards i !! key = Some mcm ->
  updateCount mcm = 0%Z ->
  modelcards (fst (reads n i key)) !! key =
    Some (match n with O => mcm | S _ => served mcm (Nat.min n 11) end).
Proof.
  intros Hm H0.
  destruct (Nat.le_gt_cases n 11) as [Hle|Hgt].
  - rewrite (reads_serve n i key mcm Hm) by lia.
    destruct n as [|n]; [done|]. cbn [fst modelcards set_modelcards].
    rewrite lookup_insert_eq. by rewrite Nat.min_l.
  - replace n with (11 + (n - 11))%nat by lia.
    rewrite reads_app. cbn [fst].
    rewrite (reads_serve 11 i key mcm Hm) by lia. cbn [fst].
    set (i11 := set_modelcards i (<[key := served mcm 11]> (modelcards i))).
    assert (H11 : modelcards i11 !! key = Some (served mcm 11))
      by apply lookup_insert_eq.
    rewrite (reads_throttled (n - 11) i11 key (served mcm 11) H11)
      by (simpl; lia || reflexivity).
    cbn [fst]. rewrite H11. by rewrite Nat.min_r by lia.
Qed.

(** What an upsert does to the card it names. *)
Lemma upsertModelCard_lookup (cards : gmap string modelCardMetadata) (postBody : PostBody) :
  upsertModelCard cards postBody !! ModelCardKey postBody =
    Some match cards !! ModelCardKey postBody with
         | None => mkModelCard (ModelCard postBody) (LastUpdateTimeSinceEpoch postBody) 0 true
         | Some mcm =>
             if String.eqb (lastUpdateTimeSinceEpoch mcm) (LastUpdateTimeSinceEpoch postBody)
             then mcm
             else mkModelCard (mc_content mcm) (LastUpdateTimeSinceEpoch postBody) 0 true
         end.
Proof.
  unfold upsertModelCard. rewrite lookup_insert_eq.
  destruct (cards !! ModelCardKey postBody) as [mcm|]; [|done].
  by destruct (String.eqb _ _).
Qed.

Lemma upsertModelCard_other (cards : gmap string modelCardMetadata) (postBody : PostBody)
    (key : string) :
  key <> ModelCardKey postBody ->
  upsertModelCard cards postBody !! key = cards !! key.
Proof. intros Hne. unfold upsertModelCard. by rewrite lookup_insert_ne. Qed.

Lemma upsertModelCard_same_token (cards : gmap string modelCardMetadata)
    (postBody : PostBody) (mcm : modelCardMetadata) :
  cards !! ModelCardKey postBody = Some mcm ->
  lastUpdateTimeSinceEpoch mcm = LastUpdateTimeSinceEpoch postBody ->
  upsertModelCard cards postBody = cards.
Proof.
  intros Hm Ht. unfold upsertModelCard. rewrite Hm, Ht, String.eqb_refl.
  cbn [negb]. by apply insert_id.
Qed.

End ModelCards.

(** ** What each transition leaves alone *)

Section Frames.

Context `{External}.

Lemma loadLoop_frame (st : BridgeStorageRESTClient) (keys : list string) :
  forall (held : bool) (i : ImportLocationServer),
    modelcards (fst (fst (loadLoop st held i keys))) = modelcards i /\
    format (fst (fst (loadLoop st held i keys))) = format i.
Proof.
  induction keys as [|key rest IH]; intros held i; [done|].
  cbn [loadLoop].
  destruct (length (Split key "_") <? 2)%nat; [apply IH|].
  destruct (bool_decide _); [done|].
  destruct (negb _); [done|].
  destruct held; [done|]. cbn [alloc].
  destruct (bool_decide (_ ∈ _)); [done|].
  match goal with |- context [loadLoop st true ?j rest] =>
    specialize (IH true j); destruct (loadLoop st true j rest) as [[i4 out] fetched]
  end.
  exact IH.
Qed.

Lemma loadFromStorage_frame (st : BridgeStorageRESTClient) (i : ImportLocationServer) :
  modelcards (fst (fst (loadFromStorage st i))) = modelcards i /\
  format (fst (fst (loadFromStorage st i))) = format i.
Proof.
  unfold loadFromStorage.
  destruct (bool_decide _); [done|].
  destruct (negb _); [done|].
  apply loadLoop_frame.
Qed.

Lemma upsert_format (u : ImportLocationServer) (key : string) (bound : string + PostBody) :
  format (fst (handleCatalogUpsertPost u key bound)) = format u.
Proof.
  unfold handleCatalogUpsertPost.
  destruct (String.length key =? 0)%nat; [done|].
  destruct bound; [done|].
  by destruct (length (Split key "_") <? 2)%nat.
Qed.

Lemma read_frame (i : ImportLocationServer) (key : string) :
  format (fst (handleModelCardGet i key)) = format i /\
  content (fst (handleModelCardGet i key)) = content i /\
  heap (fst (handleModelCardGet i key)) = heap i.
Proof.
  unfold handleModelCardGet.
  destruct (modelcards i !! key) as [mcm|]; [|done].
  by destruct (negb (needToUpdate mcm) && _).
Qed.

Lemma serve_format (i i' : ImportLocationServer) (req : Request) (r : Response) :
  serve i req i' r -> format i' = format i.
Proof.
  destruct 1 as [| key bound | key i' r Hd | |]; try done.
  - apply upsert_format.
  - by destruct (delete_frame _ _ _ _ Hd) as [->|(il & _ & _ & ->)].
  - apply read_frame.
Qed.

Lemma run_format (i i' : ImportLocationServer) (reqs : list Request) :
  run i reqs i' -> format i' = format i.
Proof.
  induction 1 as [|i req i1 r reqs i2 Hs _ IH]; [done|].
  rewrite IH. by eapply serve_format.
Qed.

(** *** The card invariant *)

Lemma cards_ok_empty : cards_ok ∅.
Proof. intros key mcm Hm. by rewrite lookup_empty in Hm. Qed.

Lemma cards_ok_upsert (cards : gmap string modelCardMetadata) (postBody : PostBody) :
  cards_ok cards -> cards_ok (upsertModelCard cards postBody).
Proof.
  intros Hok key mcm.
  destruct (decide (key = ModelCardKey postBody)) as [->|Hne].
  - rewrite upsertModelCard_lookup.
    destruct (cards !! ModelCardKey postBody) as [old|] eqn:Hold.
    + destruct (String.eqb _ _).
      * intros [= <-]. by eapply Hok.
      * intros [= <-]. simpl. lia.
    + intros [= <-]. simpl. lia.
  - rewrite upsertModelCard_other by done. apply Hok.
Qed.

Lemma cards_ok_read (i : ImportLocationServer) (key : string) :
  cards_ok (modelcards i) -> cards_ok (modelcards (fst (handleModelCardGet i key))).
Proof.
  intros Hok. unfold handleModelCardGet.
  destruct (modelcards i !! key) as [mcm|] eqn:Hm; [|done].
  destruct (needToUpdate mcm) eqn:Hd; cbn [negb andb].
  - destruct (Hok key mcm Hm) as [H0 _]. specialize (H0 Hd).
    cbn [fst modelcards set_modelcards]. intros k r.
    destruct (decide (k = key)) as [->|Hne].
    + rewrite lookup_insert_eq. intros [= <-]. simpl. rewrite H0.
      rewrite wrap_int_small by lia. split; [done|lia].
    + rewrite lookup_insert_ne by done. apply Hok.
  - destruct (10 <? updateCount mcm)%Z eqn:E; [done|].
    apply Z.ltb_ge in E. destruct (Hok key mcm Hm) as [_ Hr].
    cbn [fst modelcards set_modelcards]. intros k r.
    destruct (decide (k = key)) as [->|Hne].
    + rewrite lookup_insert_eq. intros [= <-]. simpl.
      rewrite wrap_int_small by lia. split; [done|lia].
    + rewrite lookup_insert_ne by done. apply Hok.
Qed.

Lemma serve_cards_ok (i i' : ImportLocationServer) (req : Request) (r : Response) :
  serve i req i' r -> cards_ok (modelcards i) -> cards_ok (modelcards i').
Proof.
  destruct 1 as [| key bound | key i' r Hd | |]; try done.
  - unfold handleCatalogUpsertPost.
    destruct (String.length key =? 0)%nat; [done|].
    destruct bound as [e|postBody]; [done|].
    destruct (length (Split key "_") <? 2)%nat; [done|].
    apply cards_ok_upsert.
  - by destruct (delete_frame _ _ _ _ Hd) as [->|(il & _ & _ & ->)].
  - apply cards_ok_read.
Qed.

Lemma step_cards_ok (i i' : ImportLocationServer) :
  step i i' -> cards_ok (modelcards i) -> cards_ok (modelcards i').
Proof.
  intros [(req & r & Hs)|(st & out & fetched & Hl)].
  - by eapply serve_cards_ok.
  - destruct (loadFromStorage_frame st i) as [Hm _].
    rewrite Hl in Hm. cbn [fst] in Hm. by rewrite Hm.
Qed.

Lemma steps_cards_ok (i i' : ImportLocationServer) :
  rtc step i i' -> cards_ok (modelcards i) -> cards_ok (modelcards i').
Proof.
  induction 1 as [|x y z Hxy _ IH]; [done|].
  intros Hx. apply IH. by eapply step_cards_ok.
Qed.

Lemma reachable_cards_ok (i : ImportLocationServer) :
  reachable i -> cards_ok (modelcards i).
Proof.
  intros [nf Hr]. eapply steps_cards_ok; [exact Hr|]. apply cards_ok_empty.
Qed.

End Frames.

(** ** Claims about the model-card store *)

Section ModelCardClaims.

Context `{External}.

(** C1: a record with [needToUpdate = true] and [updateCount = 0] is served
    on each of the next eleven reads (status 200, the stored content; after
    [n] of them the record has [needToUpdate = false] and
    [updateCount = n]); the twelfth read answers 304 with no body and
    leaves the server as it is; and after any number of reads an upsert for
    this card with a different token puts the record back to
    [needToUpdate = true], [updateCount = 0], so that the next read is
    served again. A first upsert of a card key creates such a record. *)
Theorem modelcard_throttle (i : ImportLocationServer) (key : string)
    (mcm : modelCardMetadata) :
  modelcards i !! key = Some mcm ->
  needToUpdate mcm = true ->
  updateCount mcm = 0%Z ->
  (forall n, (1 <= n <= 11)%nat ->
     snd (reads n i key) = replicate n (fresh mcm) /\
     modelcards (fst (reads n i key)) !! key =
       Some (mkModelCard (mc_content mcm) (lastUpdateTimeSinceEpoch mcm)
               (Z.of_nat n) false)) /\
  handleModelCardGet (fst (reads 11 i key)) key =
    (fst (reads 11 i key), respond http.StatusNotModified) /\
  (forall (n : nat) (k : string) (postBody : PostBody),
     (2 <= length (Split k "_"))%nat ->
     ModelCardKey postBody = key ->
     LastUpdateTimeSinceEpoch postBody <> lastUpdateTimeSinceEpoch mcm ->
     let i' := fst (handleCatalogUpsertPost (fst (reads n i key)) k (inr postBody)) in
     modelcards i' !! key =
       Some (mkModelCard (mc_content mcm) (LastUpdateTimeSinceEpoch postBody) 0 true) /\
     snd (handleModelCardGet i' key) = fresh mcm) /\
  (forall (i0 : ImportLocationServer) (k : string) (postBody : PostBody),
     (2 <= length (Split k "_"))%nat ->
     modelcards i0 !! ModelCardKey postBody = None ->
     modelcards (fst (handleCatalogUpsertPost i0 k (inr postBody))) !! ModelCardKey postBody =
       Some (mkModelCard (ModelCard postBody) (LastUpdateTimeSinceEpoch postBody) 0 true)).
Proof.
  intros Hm Hd H0. repeat split.
  - rewrite (reads_serve n i key mcm Hm) by lia. reflexivity.
  - rewrite (reads_record n i key mcm Hm H0).
    destruct n as [|n]; [lia|]. unfold served.
    rewrite H0, Nat.min_l by lia. reflexivity.
  - apply (read_throttled _ key (served mcm 11)).
    + by rewrite (reads_record 11 i key mcm Hm H0).
    + reflexivity.
    + simpl. lia.
  - rewrite upsert_wellformed by done. cbn [fst modelcards].
    subst key. rewrite upsertModelCard_lookup.
    rewrite (reads_record n i _ mcm Hm H0).
    assert (Hneq : String.eqb (lastUpdateTimeSinceEpoch mcm)
                     (LastUpdateTimeSinceEpoch postBody) = false)
      by (apply String.eqb_neq; congruence).
    destruct n as [|n]; cbn [served lastUpdateTimeSinceEpoch mc_content];
      by rewrite Hneq.
  - set (j := fst (handleCatalogUpsertPost (fst (reads n i key)) k (inr postBody))).
    assert (Hj : modelcards j !! key =
                 Some (mkModelCard (mc_content mcm)
                         (LastUpdateTimeSinceEpoch postBody) 0 true)).
    { subst j. rewrite upsert_wellformed by done. cbn [fst modelcards].
      subst key. rewrite upsertModelCard_lookup.
      rewrite (reads_record n i _ mcm Hm H0).
      assert (Hneq : String.eqb (lastUpdateTimeSinceEpoch mcm)
                       (LastUpdateTimeSinceEpoch postBody) = false)
        by (apply String.eqb_neq; congruence).
      destruct n as [|n]; cbn [served lastUpdateTimeSinceEpoch mc_content];
        by rewrite Hneq. }
    rewrite (read_serves j key _ Hj) by (simpl; lia). reflexivity.
  - intros i0 k postBody Hk Hnone. rewrite upsert_wellformed by done.
    cbn [fst modelcards]. rewrite upsertModelCard_lookup. by rewrite Hnone.
Qed.

(** C3: an upsert whose token equals the token stored for its card key
    leaves that record, and the whole card store, as they were: content,
    token, [needToUpdate] and [updateCount] keep their values whatever
    content the request carries. *)
Theorem upsert_same_token_unchanged (u : ImportLocationServer) (key : string)
    (postBody : PostBody) (mcm : modelCardMetadata) :
  modelcards u !! ModelCardKey postBody = Some mcm ->
  LastUpdateTimeSinceEpoch postBody = lastUpdateTimeSinceEpoch mcm ->
  modelcards (fst (handleCatalogUpsertPost u key (inr postBody))) !! ModelCardKey postBody
    = Some mcm /\
  modelcards (fst (handleCatalogUpsertPost u key (inr postBody))) = modelcards u.
Proof.
  intros Hm Ht.
  assert (Heq : modelcards (fst (handleCatalogUpsertPost u key (inr postBody)))
                = modelcards u).
  { unfold handleCatalogUpsertPost.
    destruct (String.length key =? 0)%nat; [done|].
    destruct (length (Split key "_") <? 2)%nat; [done|].
    cbn [alloc fst modelcards set_content set_modelcards set_heap].
    by apply (upsertModelCard_same_token _ _ mcm). }
  by rewrite Heq.
Qed.

(** C10: in every state the server can reach from
    [NewImportLocationServer], a record with [needToUpdate = true] has
    [updateCount = 0]; put the other way, a record with [updateCount > 0]
    has [needToUpdate = false]. *)
Theorem dirty_record_unserved (i : ImportLocationServer) (key : string)
    (mcm : modelCardMetadata) :
  reachable i ->
  modelcards i !! key = Some mcm ->
  (needToUpdate mcm = true -> updateCount mcm = 0%Z) /\
  (0 < updateCount mcm -> needToUpdate mcm = false)%Z.
Proof.
  intros Hr Hm.
  destruct (reachable_cards_ok i Hr key mcm Hm) as [Hd _].
  split; [exact Hd|]. intros Hpos.
  destruct (needToUpdate mcm); [|done]. specialize (Hd eq_refl). lia.
Qed.

End ModelCardClaims.

Lemma modelcard_throttle_witness :
  snd (@reads test_external 11 test_server1 "foo") = replicate 11 (fresh test_card) /\
  @handleModelCardGet test_external (fst (@reads test_external 11 test_server1 "foo")) "foo" =
    (fst (@reads test_external 11 test_server1 "foo"), respond http.StatusNotModified).
Proof.
  destruct (@modelcard_throttle test_external test_server1 "foo" test_card)
    as (H11 & H12 & _).
  - vm_compute. reflexivity.
  - reflexivity.
  - reflexivity.
  - split; [|exact H12]. apply (H11 11%nat). lia.
Defined.

Lemma upsert_same_token_unchanged_witness :
  modelcards
    (fst (@handleCatalogUpsertPost test_external test_server1 "mnist_v1"
            (inr (test_body (Some "update") "another card" "t1")))) !! "foo"
  = Some test_card.
Proof.
  apply (@upsert_same_token_unchanged test_external test_server1 "mnist_v1"
           (test_body (Some "update") "another card" "t1") test_card).
  - vm_compute. reflexivity.
  - reflexivity.
Defined.

Lemma test_server1_reachable : @reachable test_external test_server1.
Proof.
  exists EmptyString. eapply rtc_l; [|apply rtc_refl].
  left. eexists _, _. apply serve_upsert.
Defined.

Lemma dirty_record_unserved_witness :
  needToUpdate test_card = true /\ updateCount test_card = 0%Z.
Proof.
  split; [reflexivity|].
  refine (proj1 (@dirty_record_unserved test_external test_server1 "foo" test_card
                   test_server1_reachable _) eq_refl).
  vm_compute. reflexivity.
Defined.

(** ** The catalog store: cells and well-formedness *)

Section Catalog.

Context `{External}.

Lemma wf_new (nf : NormalizerFormat) : wf (NewImportLocationServer nf).
Proof. split; intros *; cbn [content NewImportLocationServer]; by rewrite lookup_empty. Qed.

(** Storing a freshly allocated cell under [uri] keeps the store
    well-formed, whatever else changes outside map and heap. *)
Lemma wf_store (i i' : ImportLocationServer) (uri : string) (c : option (list byte)) :
  wf i ->
  content i' = <[uri := length (heap i)]> (content i) ->
  heap i' = (heap i ++ [mkImportLocation c])%list ->
  wf i'.
Proof.
  intros [Hv Hinj] Hc Hh. split.
  - intros u p. rewrite Hc, Hh, length_app. cbn [length].
    destruct (decide (uri = u)) as [->|Hne].
    + rewrite lookup_insert_eq. intros [= <-]. lia.
    + rewrite lookup_insert_ne by done. intros Hu. specialize (Hv u p Hu). lia.
  - intros u1 u2 p. rewrite Hc.
    destruct (decide (uri = u1)) as [Heq1|Hne1], (decide (uri = u2)) as [Heq2|Hne2];
      subst; rewrite ?lookup_insert_eq, ?lookup_insert_ne by done; try done.
    + intros [= <-] Hu. specialize (Hv u2 _ Hu). lia.
    + intros Hu [= <-]. specialize (Hv u1 _ Hu). lia.
    + apply Hinj.
Qed.

Lemma wf_upsert (u : ImportLocationServer) (key : string) (bound : string + PostBody) :
  wf u -> wf (fst (handleCatalogUpsertPost u key bound)).
Proof.
  intros Hwf. unfold handleCatalogUpsertPost.
  destruct (String.length key =? 0)%nat; [done|].
  destruct bound as [e|postBody]; [done|].
  destruct (length (Split key "_") <? 2)%nat; [done|].
  by eapply wf_store.
Qed.

Lemma wf_delete (u u' : ImportLocationServer) (key : string) (r : Response) :
  handleCatalogDelete u key = Some (u', r) -> wf u -> wf u'.
Proof.
  intros Hd [Hv Hinj].
  destruct (delete_frame _ _ _ _ Hd) as [->|(il & _ & _ & ->)]; [done|].
  split; cbn [content heap set_heap]; [|done].
  intros uri p Hu. rewrite length_insert. by eapply Hv.
Qed.

Lemma wf_read (i : ImportLocationServer) (key : string) :
  wf i -> wf (fst (handleModelCardGet i key)).
Proof.
  intros [Hv Hinj]. destruct (read_frame i key) as (_ & Hc & Hh).
  split; rewrite Hc, ?Hh; done.
Qed.

Lemma serve_wf (i i' : ImportLocationServer) (req : Request) (r : Response) :
  serve i req i' r -> wf i -> wf i'.
Proof.
  destruct 1 as [| key bound | key i' r Hd | |]; try done.
  - apply wf_upsert.
  - by eapply wf_delete.
  - apply wf_read.
Qed.


Lemma wf_loadLoop (st : BridgeStorageRESTClient) (keys : list string) :
  forall (held : bool) (i : ImportLocationServer),
    wf i -> wf (fst (fst (loadLoop st held i keys))).
Proof.
  induction keys as [|key rest IH]; intros held i Hwf; [done|].
  cbn [loadLoop].
  destruct (length (Split key "_") <? 2)%nat; [by apply IH|].
  destruct (bool_decide _); [done|].
  destruct (negb _); [done|].
  destruct held; [done|]. cbn [alloc].
  destruct (bool_decide (_ ∈ _)); [by eapply wf_store|].
  match goal with |- context [loadLoop st true ?j rest] =>
    specialize (IH true j); destruct (loadLoop st true j rest) as [[i4 out] fetched]
  end.
  apply IH. by eapply wf_store.
Qed.

Lemma step_wf (i i' : ImportLocationServer) : step i i' -> wf i -> wf i'.
Proof.
  intros [(req & r & Hs)|(st & out & fetched & Hl)] Hwf.
  - by eapply serve_wf.
  - unfold loadFromStorage in Hl.
    destruct (bool_decide _); [by injection Hl as <- _ _|].
    destruct (negb _); [by injection Hl as <- _ _|].
    pose proof (wf_loadLoop st (payload (ListModelsKeys st)) false i Hwf) as Hw.
    by rewrite Hl in Hw.
Qed.

(** Every state the server reaches is well-formed. *)
Lemma reachable_wf (i : ImportLocationServer) : reachable i -> wf i.
Proof.
  intros [nf Hr]. pose proof (wf_new nf) as Hwf. revert Hwf.
  induction Hr as [|x y z Hxy _ IH]; [done|].
  intros Hx. apply IH. by eapply step_wf.
Qed.

(** *** What a URI resolves to after each write *)

Lemma entry_upsert (u : ImportLocationServer) (key : string) (postBody : PostBody)
    (uri : string) :
  wf u ->
  (2 <= length (Split key "_"))%nat ->
  entry (fst (handleCatalogUpsertPost u key (inr postBody))) uri =
    if decide (uri = keyURI (format u) key)
    then Some (mkImportLocation (Body postBody))
    else entry u uri.
Proof.
  intros [Hv _] Hk. rewrite upsert_wellformed by done.
  unfold entry. cbn [fst content heap].
  destruct (decide (uri = keyURI (format u) key)) as [->|Hne].
  - rewrite lookup_insert_eq. cbn [mbind option_bind].
    apply list_lookup_middle. reflexivity.
  - rewrite lookup_insert_ne by done.
    destruct (content u !! uri) as [p|] eqn:Hu; [|done]. cbn [mbind option_bind].
    apply lookup_app_l. by eapply Hv.
Qed.

Lemma entry_upsert_rejected (u : ImportLocationServer) (key : string)
    (bound : string + PostBody) (uri : string) :
  wf u ->
  uri <> keyURI (format u) key ->
  entry (fst (handleCatalogUpsertPost u key bound)) uri = entry u uri.
Proof.
  intros Hwf Hne. unfold handleCatalogUpsertPost.
  destruct (String.length key =? 0)%nat; [done|].
  destruct bound as [e|postBody]; [done|].
  destruct (length (Split key "_") <? 2)%nat eqn:E; [done|].
  apply Nat.ltb_ge in E.
  pose proof (entry_upsert u key postBody uri Hwf E) as He.
  rewrite upsert_wellformed in He by done.
  rewrite decide_False in He by done. exact He.
Qed.

Lemma entry_delete (u u' : ImportLocationServer) (key : string) (r : Response)
    (uri : string) :
  wf u ->
  handleCatalogDelete u key = Some (u', r) ->
  entry u' uri = entry u uri \/
  (uri = keyURI (format u) key /\ is_Some (entry u uri) /\
   entry u' uri = Some (mkImportLocation None)).
Proof.
  intros [Hv Hinj] Hd.
  destruct (delete_frame _ _ _ _ Hd) as [->|(il & Hil & Hlt & ->)]; [by left|].
  unfold entry. cbn [content heap set_heap].
  destruct (content u !! uri) as [p|] eqn:Hu; [|by left].
  cbn [mbind option_bind].
  destruct (decide (p = il)) as [->|Hne].
  - right. split; [by eapply Hinj|].
    split; [by apply lookup_lt_is_Some_2|].
    by apply list_lookup_insert_eq.
  - left. by apply list_lookup_insert_ne.
Qed.

Lemma entry_delete_other (u u' : ImportLocationServer) (key : string) (r : Response)
    (uri : string) :
  wf u ->
  handleCatalogDelete u key = Some (u', r) ->
  uri <> keyURI (format u) key ->
  entry u' uri = entry u uri.
Proof.
  intros Hwf Hd Hne.
  by destruct (entry_delete u u' key r uri Hwf Hd) as [?|[? _]].
Qed.

Lemma entry_read (i : ImportLocationServer) (key uri : string) :
  entry (fst (handleModelCardGet i key)) uri = entry i uri.
Proof.
  destruct (read_frame i key) as (_ & Hc & Hh). unfold entry. by rewrite Hc, Hh.
Qed.

(** A request that does not write to [uri] leaves what [uri] resolves to. *)
Lemma serve_entry_other (i i' : ImportLocationServer) (req : Request) (r : Response)
    (uri : string) :
  wf i ->
  serve i req i' r ->
  target (format i) req <> Some uri ->
  entry i' uri = entry i uri.
Proof.
  intros Hwf Hs Ht.
  destruct Hs as [| key bound | key i' r Hd | |]; try done.
  - apply entry_upsert_rejected; [done|]. cbn [target] in Ht. congruence.
  - eapply entry_delete_other; [done..|]. cbn [target] in Ht. congruence.
  - apply entry_read.
Qed.

Lemma run_entry_other (i i' : ImportLocationServer) (reqs : list Request)
    (uri : string) :
  wf i ->
  run i reqs i' ->
  Forall (fun req => target (format i) req <> Some uri) reqs ->
  entry i' uri = entry i uri.
Proof.
  intros Hwf Hr. revert Hwf.
  induction Hr as [|i req i1 r reqs i2 Hs _ IH]; [done|].
  intros Hwf Hall. inversion Hall as [|? ? Hreq Hrest]; subst.
  rewrite IH.
  - by eapply serve_entry_other.
  - by eapply serve_wf.
  - by rewrite (serve_format _ _ _ _ Hs).
Qed.

End Catalog.

(** ** Discovery *)

Section Discovery.

Context `{External}.

(** The loop appends, in order, the URIs whose cell has content, and
    leaves a nil slice nil when there is none. *)
Lemma discoveryLoop_spec (h : list ImportLocation) (order : list (string * nat)) :
  forall d : DicoveryResponse,
    (forall uri p, (uri, p) ∈ order -> (p < length h)%nat) ->
    exists l : list string,
      discoveryLoop h order d =
        Some (mkDiscovery match l with
                          | [] => Uris d
                          | _ :: _ => Some (default [] (Uris d) ++ l)%list
                          end) /\
      (forall uri, uri ∈ l <->
         exists p bytes, (uri, p) ∈ order /\ h !! p = Some (mkImportLocation (Some bytes))).
Proof.
  induction order as [|[uri p] rest IH]; intros d Hv.
  - exists []. split; [by destruct d|].
    intros uri. split; [by intros ?%elem_of_nil|].
    by intros (p & bytes & ?%elem_of_nil & _).
  - assert (Hrest : forall uri0 p0, (uri0, p0) ∈ rest -> (p0 < length h)%nat)
      by (intros uri0 p0 Hin; apply (Hv uri0 p0); by right).
    destruct (lookup_lt_is_Some_2 h p (Hv uri p ltac:(left))) as [[c] Hp].
    cbn [discoveryLoop]. rewrite Hp. cbn [il_content].
    destruct c as [bytes|].
    + destruct (IH (mkDiscovery (Some (default [] (Uris d) ++ [uri])%list)) Hrest)
        as (l & Hl & Hin).
      exists (uri :: l). split.
      * rewrite Hl. cbn [Uris default]. do 2 f_equal.
        destruct l; [done|]. cbv [id]. by rewrite <- List.app_assoc.
      * intros uri0. rewrite elem_of_cons, Hin. split.
        -- intros [->|(p0 & b0 & Hin0 & Hp0)].
           ++ exists p, bytes. split; [left|done].
           ++ exists p0, b0. split; [by right|done].
        -- intros (p0 & b0 & [[= -> ->]|Hin0]%elem_of_cons & Hp0); [by left|].
           right. by exists p0, b0.
    + destruct (IH d Hrest) as (l & Hl & Hin).
      exists l. split; [done|].
      intros uri0. rewrite Hin. split.
      * intros (p0 & b0 & Hin0 & Hp0). exists p0, b0. split; [by right|done].
      * intros (p0 & b0 & [[= -> ->]|Hin0]%elem_of_cons & Hp0); [congruence|].
        by exists p0, b0.
Qed.

(** Discovery answers 200 with the marshalled list of exactly the URIs
    that resolve to a cell with content; the slice is nil when there is
    none. *)
Lemma discovery_spec (i : ImportLocationServer) (order : list (string * nat)) :
  wf i ->
  order ≡ₚ map_to_list (content i) ->
  exists l : list string,
    handleCatalogDiscoveryGet i order =
      Some (respondData http.StatusOK "Content-Type: application/json"
              (json_encode (mkDiscovery match l with [] => None | _ :: _ => Some l end))) /\
    (forall uri, uri ∈ l <-> present i uri).
Proof.
  intros [Hv _] Hperm.
  assert (Hin : forall uri p, (uri, p) ∈ order <-> content i !! uri = Some p).
  { intros uri p. rewrite Hperm. apply elem_of_map_to_list. }
  destruct (discoveryLoop_spec (heap i) order (mkDiscovery None)) as (l & Hl & Hl').
  { intros uri p Hop. apply (Hv uri p). by apply Hin. }
  exists l. split.
  - unfold handleCatalogDiscoveryGet. rewrite Hl. cbn [json_Marshal Uris default].
    by destruct l.
  - intros uri. rewrite Hl'. unfold present, entry. split.
    + intros (p & bytes & Hop & Hp). exists bytes.
      apply Hin in Hop. by rewrite Hop.
    + intros (bytes & He).
      destruct (content i !! uri) as [p|] eqn:Hu; [|done].
      exists p, bytes. split; [by apply Hin|done].
Qed.

End Discovery.

(** ** Reading one item *)

Section ItemGet.

Context `{External}.

Lemma itemGet_no_key (i : ImportLocationServer) (model : ModelURI) :
  ShouldBindUri model = true ->
  content i !! snd (BuildImportKeyAndURI (Model model) (Version model) (format i)) = None ->
  itemGet i model = Some (respond http.StatusNotFound).
Proof. intros Hb Hc. unfold itemGet. by rewrite Hb, Hc. Qed.

Lemma itemGet_entry (i : ImportLocationServer) (model : ModelURI) (il : ImportLocation) :
  ShouldBindUri model = true ->
  entry i (snd (BuildImportKeyAndURI (Model model) (Version model) (format i))) = Some il ->
  itemGet i model = Some (handleCatalogInfoGet il).
Proof.
  intros Hb He. unfold itemGet. rewrite Hb. cbn [negb]. unfold entry in He.
  destruct (content i !! _) as [p|]; [|done]. cbn [mbind option_bind] in He.
  by rewrite He.
Qed.

(** *** Keys of the map *)

Lemma loadLoop_dom (st : BridgeStorageRESTClient) (keys : list string) :
  forall (held : bool) (i : ImportLocationServer),
    dom (content i) ⊆ dom (content (fst (fst (loadLoop st held i keys)))).
Proof.
  induction keys as [|key rest IH]; intros held i; [done|].
  cbn [loadLoop].
  destruct (length (Split key "_") <? 2)%nat; [apply IH|].
  destruct (bool_decide _); [done|].
  destruct (negb _); [done|].
  destruct held; [done|]. cbn [alloc].
  destruct (bool_decide (_ ∈ _)).
  { cbn [fst content set_content set_heap]. rewrite dom_insert_L. set_solver. }
  match goal with |- context [loadLoop st true ?j rest] =>
    specialize (IH true j); destruct (loadLoop st true j rest) as [[i4 out] fetched]
  end.
  cbn [fst] in *. etrans; [|exact IH].
  cbn [content set_router set_content set_heap]. rewrite dom_insert_L. set_solver.
Qed.

Lemma serve_dom (i i' : ImportLocationServer) (req : Request) (r : Response) :
  serve i req i' r -> dom (content i) ⊆ dom (content i').
Proof.
  destruct 1 as [| key bound | key i' r Hd | |]; try done.
  - unfold handleCatalogUpsertPost.
    destruct (String.length key =? 0)%nat; [done|].
    destruct bound as [e|postBody]; [done|].
    destruct (length (Split key "_") <? 2)%nat; [done|].
    cbn [alloc fst content set_content set_modelcards set_heap].
    rewrite dom_insert_L. set_solver.
  - by destruct (delete_frame _ _ _ _ Hd) as [->|(il & _ & _ & ->)].
  - destruct (read_frame i key) as (_ & -> & _). done.
Qed.

Lemma step_dom (i i' : ImportLocationServer) :
  step i i' -> dom (content i) ⊆ dom (content i').
Proof.
  intros [(req & r & Hs)|(st & out & fetched & Hl)].
  - by eapply serve_dom.
  - unfold loadFromStorage in Hl.
    destruct (bool_decide _); [by injection Hl as <- _ _|].
    destruct (negb _); [by injection Hl as <- _ _|].
    pose proof (loadLoop_dom st (payload (ListModelsKeys st)) false i) as Hd.
    by rewrite Hl in Hd.
Qed.

Lemma steps_wf (i i' : ImportLocationServer) : rtc step i i' -> wf i -> wf i'.
Proof.
  induction 1 as [|x y z Hxy _ IH]; [done|].
  intros Hx. apply IH. by eapply step_wf.
Qed.

(** A URI no upsert was addressed to has no key in the map. *)
Lemma run_no_upsert_no_key (i i' : ImportLocationServer) (reqs : list Request)
    (uri : string) :
  run i reqs i' ->
  content i !! uri = None ->
  Forall (fun req => forall k b, req = PostUpsert k b -> keyURI (format i) k <> uri) reqs ->
  content i' !! uri = None.
Proof.
  induction 1 as [|i req i1 r reqs i2 Hs _ IH]; [done|].
  intros Hc Hall. inversion Hall as [|? ? Hreq Hrest]; subst.
  apply IH.
  - destruct Hs as [| key bound | key i' r Hd | |]; try done.
    + unfold handleCatalogUpsertPost.
      destruct (String.length key =? 0)%nat; [done|].
      destruct bound as [e|postBody]; [done|].
      destruct (length (Split key "_") <? 2)%nat; [done|].
      cbn [alloc fst content set_content set_modelcards set_heap].
      rewrite lookup_insert_ne; [done|]. by apply (Hreq key (inr postBody)).
    + by destruct (delete_frame _ _ _ _ Hd) as [->|(il & _ & _ & ->)].
    + by destruct (read_frame i key) as (_ & -> & _).
  - by rewrite (serve_format _ _ _ _ Hs).
Qed.


End ItemGet.

(** ** Claims about the catalog store *)

Section CatalogClaims.

Context `{External}.

(** C2, as the code has it: when no entry of the store has a payload (the
    store is empty, or every payload is absent), discovery answers 200 and
    the body is the JSON object [{"uris":null}]: the slice was never
    appended to, and a nil slice is marshalled as [null]. *)
Theorem discovery_nothing_present (i : ImportLocationServer)
    (order : list (string * nat)) :
  wf i ->
  order ≡ₚ map_to_list (content i) ->
  (forall uri, ~ present i uri) ->
  handleCatalogDiscoveryGet i order =
    Some (respondData http.StatusOK "Content-Type: application/json" uris_null).
Proof.
  intros Hwf Hperm Hnone.
  destruct (discovery_spec i order Hwf Hperm) as (l & Hl & Hin).
  destruct l as [|uri l]; [exact Hl|].
  destruct (Hnone uri). apply Hin. by left.
Qed.

(** C4: from a reachable state, no sequence of requests and hydrations
    takes a key out of the catalog map; and a delete leaves the map itself
    untouched: every URI resolves to what it resolved to before, except
    that the URI of the deleted key, if it had an entry, now resolves to an
    entry without payload. *)
Theorem keys_never_removed (i i' : ImportLocationServer) :
  reachable i ->
  rtc step i i' ->
  dom (content i) ⊆ dom (content i') /\
  (forall key u r,
     handleCatalogDelete i' key = Some (u, r) ->
     content u = content i' /\
     (forall uri,
        entry u uri = entry i' uri \/
        (uri = keyURI (format i') key /\ is_Some (entry i' uri) /\
         entry u uri = Some (mkImportLocation None)))).
Proof.
  intros Hr Hsteps. split.
  - clear Hr. induction Hsteps as [|x y z Hxy _ IH]; [done|].
    etrans; [|exact IH]. by apply step_dom.
  - intros key u r Hd.
    assert (Hwf : wf i') by (eapply steps_wf; [done|by apply reachable_wf]).
    split.
    + by destruct (delete_frame _ _ _ _ Hd) as [->|(il & _ & _ & ->)].
    + intros uri. by eapply entry_delete.
Qed.

(** C6: discovery answers with exactly the URIs whose entry has a payload.
    A URI without a key in the map is not listed and reading it gives 404;
    this is the case of every URI no upsert was addressed to since the
    server was created. A URI whose entry has no payload is not listed
    although its key is in the map; this is the case of the URI of a key
    that has just been deleted. *)
Theorem discovery_lists_present (i : ImportLocationServer)
    (order : list (string * nat)) :
  wf i ->
  order ≡ₚ map_to_list (content i) ->
  exists l : list string,
    handleCatalogDiscoveryGet i order =
      Some (respondData http.StatusOK "Content-Type: application/json"
              (json_encode (mkDiscovery match l with [] => None | _ :: _ => Some l end))) /\
    (forall uri, uri ∈ l <-> present i uri) /\
    (forall uri, content i !! uri = None ->
       (uri ∉ l) /\
       (forall model, ShouldBindUri model = true ->
          snd (BuildImportKeyAndURI (Model model) (Version model) (format i)) = uri ->
          itemGet i model = Some (respond http.StatusNotFound))) /\
    (forall uri nf reqs,
       run (NewImportLocationServer nf) reqs i ->
       Forall (fun req => forall k b, req = PostUpsert k b -> keyURI nf k <> uri) reqs ->
       content i !! uri = None) /\
    (forall uri, entry i uri = Some (mkImportLocation None) ->
       (uri ∉ l) /\ uri ∈ dom (content i)) /\
    (forall u key r,
       wf u ->
       (2 <= length (Split key "_"))%nat ->
       handleCatalogDelete u key = Some (i, r) ->
       (keyURI (format u) key ∉ l) /\
       (keyURI (format u) key ∈ dom (content u) ->
        entry i (keyURI (format u) key) = Some (mkImportLocation None))).
Proof.
  intros Hwf Hperm.
  destruct (discovery_spec i order Hwf Hperm) as (l & Hl & Hin).
  exists l. split; [exact Hl|]. split; [exact Hin|].
  assert (Hcleared : forall uri, entry i uri = Some (mkImportLocation None) -> uri ∉ l).
  { intros uri He [bytes Hb]%Hin. congruence. }
  assert (Hnokey : forall uri, content i !! uri = None -> uri ∉ l).
  { intros uri Hc [bytes Hb]%Hin. unfold entry in Hb. by rewrite Hc in Hb. }
  split.
  { intros uri Hc. split; [by apply Hnokey|].
    intros model Hb <-. by apply itemGet_no_key. }
  split.
  { intros uri nf reqs Hrun Hall.
    eapply run_no_upsert_no_key; [exact Hrun|apply lookup_empty|exact Hall]. }
  split.
  { intros uri He. split; [by apply Hcleared|].
    apply elem_of_dom. unfold entry in He.
    destruct (content i !! uri); [done|discriminate]. }
  intros u key r Hwfu Hk Hd. rewrite delete_wellformed in Hd by done.
  destruct (content u !! keyURI (format u) key) as [il|] eqn:Hc.
  - destruct (heap u !! il) as [c|] eqn:Hh; [|done]. injection Hd as <- _.
    assert (He : entry (set_heap u (<[il := mkImportLocation None]> (heap u)))
                   (keyURI (format u) key) = Some (mkImportLocation None)).
    { unfold entry. cbn [content heap set_heap]. rewrite Hc.
      cbn [mbind option_bind]. apply list_lookup_insert_eq. by eapply lookup_lt_Some. }
    split; [by apply Hcleared|done].
  - injection Hd as <- _. split; [by apply Hnokey|].
    intros [p Hp]%elem_of_dom. congruence.
Qed.

End CatalogClaims.

(** C2, as stated, fails on the empty store: the body is
    [{"uris":null}], which is not [{"uris":[]}]. The first test case of
    [TestHandleCatalogDiscoveryGet] expects the same body. *)
Lemma discovery_empty_store_null :
  @handleCatalogDiscoveryGet test_external test_server
      (map_to_list (content test_server)) =
    Some (respondData http.StatusOK "Content-Type: application/json" uris_null) /\
  uris_null <> uris_empty_array.
Proof. split; [vm_compute; reflexivity|discriminate]. Qed.

Lemma test_server_nil_wf : @wf test_external test_server_nil.
Proof. apply wf_upsert, wf_new. Defined.

Lemma discovery_nothing_present_witness :
  @handleCatalogDiscoveryGet test_external test_server_nil
      (map_to_list (content test_server_nil)) =
    Some (respondData http.StatusOK "Content-Type: application/json" uris_null).
Proof.
  apply (@discovery_nothing_present test_external test_server_nil).
  - exact test_server_nil_wf.
  - reflexivity.
  - intros uri [bytes Hb]. unfold entry in Hb.
    destruct (decide (uri = "/mnist/v1/catalog-info.yaml")) as [->|Hne].
    + vm_compute in Hb. discriminate.
    + change (content test_server_nil)
        with (<["/mnist/v1/catalog-info.yaml" := 0%nat]> (∅ : gmap string nat)) in Hb.
      rewrite lookup_insert_ne, lookup_empty in Hb by done. discriminate.
Defined.

Lemma keys_never_removed_witness :
  "/mnist/v1/catalog-info.yaml" ∈ dom (content test_server1) /\
  dom (content test_server1) ⊆ dom (content test_server1_deleted) /\
  content test_server1_deleted = content test_server1.
Proof.
  split; [apply elem_of_dom; vm_compute; by eexists|].
  assert (Hdel : @handleCatalogDelete test_external test_server1 "mnist_v1" =
                 Some (test_server1_deleted, respond http.StatusOK))
    by (vm_compute; reflexivity).
  split.
  - apply (@keys_never_removed test_external test_server1 test_server1_deleted).
    + exists EmptyString. eapply rtc_l; [|apply rtc_refl].
      left. eexists _, _. apply serve_upsert.
    + eapply rtc_l; [|apply rtc_refl]. left. eexists _, _.
      apply serve_delete. exact Hdel.
  - refine (proj1 (proj2 (@keys_never_removed test_external test_server test_server1 _ _)
                     "mnist_v1" test_server1_deleted (respond http.StatusOK) Hdel)).
    + exists EmptyString. apply rtc_refl.
    + eapply rtc_l; [|apply rtc_refl]. left. eexists _, _. apply serve_upsert.
Defined.

Lemma test_server1_wf : @wf test_external test_server1.
Proof. apply wf_upsert, wf_new. Defined.

Lemma discovery_lists_present_witness :
  exists l : list string,
    @handleCatalogDiscoveryGet test_external test_server1
        (map_to_list (content test_server1)) =
      Some (respondData http.StatusOK "Content-Type: application/json"
              (@json_encode test_external
                 (mkDiscovery match l with [] => None | _ :: _ => Some l end))) /\
    (forall uri, uri ∈ l <-> @present test_external test_server1 uri).
Proof.
  destruct (@discovery_lists_present test_external test_server1
              (map_to_list (content test_server1)))
    as (l & Hl & Hin & _).
  - exact test_server1_wf.
  - reflexivity.
  - exists l. by split.
Defined.

(** ** Claims about writes followed by reads *)

Section WriteClaims.

Context `{External}.

(** C5: for a key with at least two segments, a delete answers 200 whether
    or not the URI has an entry; a second delete of the same key answers
    200 and leaves the state of the first. A delete of a URI without entry
    changes nothing. In all cases the map is the same, every other URI
    resolves to what it resolved to, and discovery lists, after one delete
    or two, the URIs it listed before except the deleted one. *)
Theorem delete_idempotent (u : ImportLocationServer) (key : string) :
  wf u ->
  (2 <= length (Split key "_"))%nat ->
  exists u1 : ImportLocationServer,
    handleCatalogDelete u key = Some (u1, respond http.StatusOK) /\
    handleCatalogDelete u1 key = Some (u1, respond http.StatusOK) /\
    (content u !! keyURI (format u) key = None -> u1 = u) /\
    content u1 = content u /\
    (forall uri, uri <> keyURI (format u) key -> entry u1 uri = entry u uri) /\
    (forall uri, present u1 uri <-> present u uri /\ uri <> keyURI (format u) key) /\
    (forall order, order ≡ₚ map_to_list (content u1) ->
       exists l : list string,
         handleCatalogDiscoveryGet u1 order =
           Some (respondData http.StatusOK "Content-Type: application/json"
                   (json_encode (mkDiscovery match l with [] => None | _ :: _ => Some l end))) /\
         (forall uri, uri ∈ l <-> present u uri /\ uri <> keyURI (format u) key)).
Proof.
  intros Hwf Hk. pose proof Hwf as [Hv Hinj].
  assert (Hex : exists u1, handleCatalogDelete u key = Some (u1, respond http.StatusOK)).
  { rewrite delete_wellformed by done.
    destruct (content u !! keyURI (format u) key) as [il|] eqn:Hc; [|by eexists].
    destruct (lookup_lt_is_Some_2 (heap u) il (Hv _ _ Hc)) as [c ->]. by eexists. }
  destruct Hex as [u1 Hd]. exists u1.
  assert (Hwf1 : wf u1) by (by eapply wf_delete).
  assert (Hfmt : format u1 = format u)
    by (by destruct (delete_frame _ _ _ _ Hd) as [->|(il & _ & _ & ->)]).
  assert (Hother : forall uri, uri <> keyURI (format u) key -> entry u1 uri = entry u uri)
    by (intros uri Hne; by eapply entry_delete_other).
  assert (Hpres : forall uri, present u1 uri <-> present u uri /\ uri <> keyURI (format u) key).
  { intros uri. unfold present. split.
    - intros [bytes Hb].
      destruct (entry_delete u u1 key _ uri Hwf Hd) as [He|(-> & _ & He)].
      + destruct (decide (uri = keyURI (format u) key)) as [->|Hne].
        * exfalso. rewrite delete_wellformed in Hd by done.
          unfold entry in Hb, He.
          destruct (content u !! keyURI (format u) key) as [il|] eqn:Hc.
          -- destruct (heap u !! il) as [c|] eqn:Hh; [|done]. injection Hd as <-.
             cbn [content heap set_heap] in Hb. rewrite Hc in Hb.
             cbn [mbind option_bind] in Hb.
             rewrite list_lookup_insert_eq in Hb by (by eapply lookup_lt_Some).
             discriminate.
          -- injection Hd as <-. by rewrite Hc in Hb.
        * split; [|done]. exists bytes. by rewrite <- He.
      + congruence.
    - intros [[bytes Hb] Hne]. exists bytes. by rewrite Hother. }
  split; [exact Hd|]. split.
  { rewrite delete_wellformed by done. rewrite delete_wellformed in Hd by done.
    rewrite Hfmt.
    destruct (content u !! keyURI (format u) key) as [il|] eqn:Hc.
    - destruct (heap u !! il) as [c|] eqn:Hh; [|done]. injection Hd as <-.
      cbn [content heap set_heap]. rewrite Hc.
      rewrite list_lookup_insert_eq by (by eapply lookup_lt_Some).
      by rewrite list_insert_insert_eq.
    - injection Hd as <-. by rewrite Hc. }
  split.
  { intros Hc. rewrite delete_wellformed in Hd by done. rewrite Hc in Hd.
    by injection Hd as <-. }
  split.
  { by destruct (delete_frame _ _ _ _ Hd) as [->|(il & _ & _ & ->)]. }
  split; [exact Hother|]. split; [exact Hpres|].
  intros order Hperm.
  destruct (discovery_spec u1 order Hwf1 Hperm) as (l & Hl & Hin).
  exists l. split; [exact Hl|]. intros uri. by rewrite Hin.
Qed.

(** C7, as the code has it: the write path and the read path derive the
    URI by the same function of model, version and the server's format.
    After an accepted upsert whose body carries document bytes, and after
    any further requests none of which is an upsert or a delete for that
    URI, an item read whose model and version are the first two segments of
    the key and whose three path parameters are non-empty answers 200 with
    exactly those bytes. *)
Theorem upsert_then_get (u u' : ImportLocationServer) (key : string)
    (postBody : PostBody) (bytes : list byte) (reqs : list Request)
    (model : ModelURI) :
  wf u ->
  (2 <= length (Split key "_"))%nat ->
  Body postBody = Some bytes ->
  run (fst (handleCatalogUpsertPost u key (inr postBody))) reqs u' ->
  Forall (fun req => target (format u) req <> Some (keyURI (format u) key)) reqs ->
  Model model = seg (Split key "_") 0 ->
  Version model = seg (Split key "_") 1 ->
  ShouldBindUri model = true ->
  snd (handleCatalogUpsertPost u key (inr postBody)) = respond http.StatusCreated /\
  snd (BuildImportKeyAndURI (Model model) (Version model) (format u')) =
    keyURI (format u) key /\
  itemGet u' model =
    Some (respondData http.StatusOK "Content-Type: application/json" bytes).
Proof.
  intros Hwf Hk Hb Hrun Hall Hm Hver Hbind.
  set (u0 := fst (handleCatalogUpsertPost u key (inr postBody))) in *.
  assert (Hf0 : format u0 = format u) by apply upsert_format.
  assert (Hf : format u' = format u) by (by rewrite (run_format _ _ _ Hrun)).
  assert (Huri : snd (BuildImportKeyAndURI (Model model) (Version model) (format u'))
                 = keyURI (format u) key)
    by (unfold keyURI; by rewrite Hm, Hver, Hf).
  split; [by rewrite upsert_wellformed|]. split; [exact Huri|].
  rewrite (itemGet_entry u' model (mkImportLocation (Some bytes)) Hbind); [done|].
  rewrite Huri, (run_entry_other u0 u' reqs _ (wf_upsert u key _ Hwf) Hrun)
    by (by rewrite Hf0).
  subst u0. rewrite entry_upsert by done. by rewrite decide_True, Hb.
Qed.


End WriteClaims.

Lemma delete_idempotent_witness :
  exists u1 : @ImportLocationServer test_external,
    @handleCatalogDelete test_external test_server1 "mnist_v2" =
      Some (u1, respond http.StatusOK) /\
    @handleCatalogDelete test_external u1 "mnist_v2" =
      Some (u1, respond http.StatusOK).
Proof.
  destruct (@delete_idempotent test_external test_server1 "mnist_v2")
    as (u1 & H1 & H2 & _).
  - exact test_server1_wf.
  - vm_compute. lia.
  - exists u1. by split.
Defined.

(** C7, as stated, fails for an upsert that carries no document bytes: the
    upsert of key [mnist_v1] is accepted with 201, and the item read of
    [/mnist/v1/...] answers 404. *)
Lemma upsert_without_bytes_then_get :
  snd (@handleCatalogUpsertPost test_external test_server "mnist_v1"
         (inr (test_body None "card" "t1"))) = respond http.StatusCreated /\
  @itemGet test_external test_server_nil (mkModelURI "mnist" "v1" "catalog-info.yaml") =
    Some (respond http.StatusNotFound).
Proof. split; vm_compute; reflexivity. Qed.

Lemma upsert_then_get_witness :
  @itemGet test_external test_server1 (mkModelURI "mnist" "v1" "catalog-info.yaml") =
    Some (respondData http.StatusOK "Content-Type: application/json"
            (list_byte_of_string "create")).
Proof.
  apply (@upsert_then_get test_external test_server test_server1 "mnist_v1"
           (test_body (Some "create") "card" "t1") (list_byte_of_string "create")
           [DeleteCatalog "mnist_v2"; GetItem (mkModelURI "mnist" "v2" "x")]).
  - apply wf_new.
  - vm_compute. lia.
  - reflexivity.
  - eapply run_cons; [apply serve_delete; vm_compute; reflexivity|].
    eapply run_cons; [apply serve_item; vm_compute; reflexivity|].
    apply run_nil.
  - repeat constructor; vm_compute; discriminate.
  - reflexivity.
  - reflexivity.
  - reflexivity.
Defined.


(** ** Hydration *)

Section HydrationFacts.

Context `{External}.

(** A failing [ListModelsKeys] ends hydration at once: nothing is fetched
    and the server is as it was. *)
Lemma loadFromStorage_list_failure (st : BridgeStorageRESTClient)
    (i : ImportLocationServer) :
  is_Some (err (ListModelsKeys st)) \/ rc (ListModelsKeys st) <> http.StatusOK ->
  loadFromStorage st i = (i, Returned false None, []).
Proof.
  intros Hfail. unfold loadFromStorage.
  destruct (bool_decide (is_Some (err (ListModelsKeys st)))) eqn:E; [done|].
  apply bool_decide_eq_false in E.
  destruct Hfail as [He|Hrc]; [done|].
  destruct (rc (ListModelsKeys st) =? http.StatusOK)%Z eqn:Erc; [|done].
  by apply Z.eqb_eq in Erc.
Qed.

(** A key with fewer than two segments is passed over: the loop goes on
    with the next key, in the same state. *)
Lemma loadLoop_skips_malformed (st : BridgeStorageRESTClient) (held : bool)
    (i : ImportLocationServer) (key : string) (rest : list string) :
  (length (Split key "_") < 2)%nat ->
  loadLoop st held i (key :: rest) = loadLoop st held i rest.
Proof.
  intros Hk. cbn [loadLoop].
  destruct (length (Split key "_") <? 2)%nat eqn:E; [done|].
  apply Nat.ltb_ge in E. lia.
Qed.

(** When the loop comes to a key whose fetch fails, it returns
    [(false, nil)] with the server as it is; no later key is fetched. *)
Lemma loadLoop_fetch_failure (st : BridgeStorageRESTClient) (held : bool)
    (i : ImportLocationServer) (key : string) (rest : list string) :
  (2 <= length (Split key "_"))%nat ->
  is_Some (err (FetchModel st key)) \/ rc (FetchModel st key) <> http.StatusOK ->
  loadLoop st held i (key :: rest) = (i, Returned false None, [key]).
Proof.
  intros Hk Hfail. cbn [loadLoop].
  destruct (length (Split key "_") <? 2)%nat eqn:E; [apply Nat.ltb_lt in E; lia|].
  destruct (bool_decide (is_Some (err (FetchModel st key)))) eqn:Ee; [done|].
  apply bool_decide_eq_false in Ee.
  destruct Hfail as [He|Hrc]; [done|].
  destruct (rc (FetchModel st key) =? http.StatusOK)%Z eqn:Erc; [|done].
  by apply Z.eqb_eq in Erc.
Qed.

(** Once an iteration has taken the lock, the next key that is fetched
    successfully blocks the call in [i.lock.Lock()]. *)
Lemma loadLoop_blocks_when_held (st : BridgeStorageRESTClient)
    (i : ImportLocationServer) (key : string) (rest : list string) :
  (2 <= length (Split key "_"))%nat ->
  err (FetchModel st key) = None ->
  rc (FetchModel st key) = http.StatusOK ->
  loadLoop st true i (key :: rest) = (i, Blocked, [key]).
Proof.
  intros Hk He Hrc. cbn [loadLoop].
  destruct (length (Split key "_") <? 2)%nat eqn:E; [apply Nat.ltb_lt in E; lia|].
  rewrite He, Hrc.
  rewrite bool_decide_eq_false_2 by (by intros [? ?]).
  reflexivity.
Qed.

(** The first key that is fetched successfully is stored and, when its
    path has no handler yet, registered; the loop goes on holding the
    lock. *)
Lemma loadLoop_first_insert (st : BridgeStorageRESTClient)
    (i : ImportLocationServer) (key : string) (rest : list string) :
  (2 <= length (Split key "_"))%nat ->
  err (FetchModel st key) = None ->
  rc (FetchModel st key) = http.StatusOK ->
  keyURI (format i) key ∉ (router i).*1 ->
  loadLoop st false i (key :: rest) =
    let i3 := mkServer (router i ++ [(keyURI (format i) key, length (heap i))])%list
                (<[keyURI (format i) key := length (heap i)]> (content i))
                (modelcards i) (format i)
                (heap i ++ [mkImportLocation (payload (FetchModel st key))])%list in
    (fst (fst (loadLoop st true i3 rest)),
     snd (fst (loadLoop st true i3 rest)),
     key :: snd (loadLoop st true i3 rest)).
Proof.
  intros Hk He Hrc Hnew. cbn [loadLoop].
  destruct (length (Split key "_") <? 2)%nat eqn:E; [apply Nat.ltb_lt in E; lia|].
  rewrite He, Hrc.
  rewrite bool_decide_eq_false_2 by (by intros [? ?]).
  cbn [Z.eqb Pos.eqb http.StatusOK negb alloc].
  rewrite bool_decide_eq_false_2 by exact Hnew.
  match goal with |- context [loadLoop st true ?j rest] =>
    change j with
      (mkServer (router i ++ [(keyURI (format i) key, length (heap i))])%list
         (<[keyURI (format i) key := length (heap i)]> (content i))
         (modelcards i) (format i)
         (heap i ++ [mkImportLocation (payload (FetchModel st key))])%list)
  end.
  cbv zeta. by destruct (loadLoop st true _ rest) as [[i4 out] fetched].
Qed.

(** Hydration cannot store a second document: from a free lock, two keys
    that are both fetched successfully leave the call blocked, with the
    first document stored and the second fetched but not stored, whatever
    keys follow. *)
Lemma loadLoop_two_entries_block (st : BridgeStorageRESTClient)
    (i : ImportLocationServer) (k1 k2 : string) (rest : list string) :
  (2 <= length (Split k1 "_"))%nat ->
  err (FetchModel st k1) = None ->
  rc (FetchModel st k1) = http.StatusOK ->
  (2 <= length (Split k2 "_"))%nat ->
  err (FetchModel st k2) = None ->
  rc (FetchModel st k2) = http.StatusOK ->
  keyURI (format i) k1 ∉ (router i).*1 ->
  loadLoop st false i (k1 :: k2 :: rest) =
    (mkServer (router i ++ [(keyURI (format i) k1, length (heap i))])%list
       (<[keyURI (format i) k1 := length (heap i)]> (content i))
       (modelcards i) (format i)
       (heap i ++ [mkImportLocation (payload (FetchModel st k1))])%list,
     Blocked, [k1; k2]).
Proof.
  intros Hk1 He1 Hrc1 Hk2 He2 Hrc2 Hnew.
  rewrite loadLoop_first_insert by done. cbv zeta.
  by rewrite loadLoop_blocks_when_held.
Qed.

End HydrationFacts.

(** C8, at a backing store with three keys of which the third cannot be
    fetched: the call does not come to the third key. It stores the first
    document, fetches the second, and blocks in [i.lock.Lock()], because
    the lock taken for the first document is released only when the
    function returns. *)
Theorem loadFromStorage_blocks :
  @loadFromStorage test_external test_storage test_server =
    (test_server_hydrated1, Blocked, ["mnist_v1"; "mnist_v2"]).
Proof. vm_compute. reflexivity. Qed.

(** * Further properties of the handlers *)

(** ** Keys and their segments *)

Lemma Split_cons (s : string) (sep : ascii) :
  exists w ws, Split s sep = w :: ws.
Proof.
  destruct (Split s sep) as [|w ws] eqn:E; [by apply Split_nonempty in E|eauto].
Qed.

Lemma Split_app_sep (m rest : string) (sep : ascii) :
  occurs sep m = false ->
  Split (m ++ String sep rest) sep = m :: Split rest sep.
Proof.
  induction m as [|a m IH]; intros Hm.
  - change (EmptyString ++ String sep rest) with (String sep rest).
    cbn [Split]. by rewrite Ascii.eqb_refl.
  - change (String a m ++ String sep rest) with (String a (m ++ String sep rest)).
    cbn [occurs] in Hm. apply orb_false_iff in Hm as [Ha Hm].
    cbn [Split]. rewrite Ha, (IH Hm). reflexivity.
Qed.

Lemma Split_no_sep (m : string) (sep : ascii) :
  occurs sep m = false -> Split m sep = [m].
Proof.
  induction m as [|a m IH]; intros Hm; cbn [Split]; [done|].
  cbn [occurs] in Hm. apply orb_false_iff in Hm as [Ha Hm].
  by rewrite Ha, (IH Hm).
Qed.

(** A key has two segments exactly when it contains the separator. *)
Lemma wellformed_iff_occurs (key : string) (sep : ascii) :
  (2 <= length (Split key sep))%nat <-> occurs sep key = true.
Proof.
  induction key as [|a key IH]; cbn [Split occurs length].
  - split; [lia|discriminate].
  - destruct (Ascii.eqb a sep); cbn [orb].
    + destruct (Split_cons key sep) as (w & ws & ->). cbn [length]. split; [done|lia].
    + destruct (Split_cons key sep) as (w & ws & Hs). rewrite Hs in *.
      exact IH.
Qed.

(** X3: [Split] cuts a string at every separator and nowhere else: joining
    the segments with the separator gives the string back, no segment
    contains the separator, and there is one more segment than there are
    separators, so a key is well-formed exactly when it contains one. *)
Theorem Split_Join (s : string) (sep : ascii) :
  Join (Split s sep) sep = s /\
  Forall (fun w => occurs sep w = false) (Split s sep) /\
  ((2 <= length (Split s sep))%nat <-> occurs sep s = true).
Proof.
  split; [|split; [|apply wellformed_iff_occurs]].
  - induction s as [|a s IH]; cbn [Split]; [done|].
    destruct (Ascii.eqb a sep) eqn:Ea.
    + apply Ascii.eqb_eq in Ea as ->.
      destruct (Split_cons s sep) as (w & ws & Hs). rewrite Hs in *.
      cbn [Join]. cbn [Join] in IH. by rewrite IH.
    + destruct (Split_cons s sep) as (w & ws & Hs). rewrite Hs in *.
      cbn [Join] in *. destruct ws as [|w' ws]; [by rewrite IH|].
      by rewrite <- IH.
  - induction s as [|a s IH]; cbn [Split]; [by repeat constructor|].
    destruct (Ascii.eqb a sep) eqn:Ea.
    + by constructor.
    + destruct (Split_cons s sep) as (w & ws & Hs). rewrite Hs in *.
      inversion IH as [|? ? Hw Hws]; subst. constructor; [|done].
      cbn [occurs]. by rewrite Ea, Hw.
Qed.

Lemma append_empty_r (s : string) : s ++ EmptyString = s.
Proof.
  induction s as [|a s IH]; [done|].
  change (String a s ++ EmptyString) with (String a (s ++ EmptyString)).
  by rewrite IH.
Qed.

(** The first two segments of a key written [model_version] or
    [model_version_...]. *)
Lemma Split_model_version (model version tail : string) :
  occurs "_" model = false ->
  occurs "_" version = false ->
  tail = EmptyString \/ (exists t, tail = String "_" t) ->
  exists more, Split (model ++ String "_" (version ++ tail)) "_" = model :: version :: more.
Proof.
  intros Hm Hv Ht. rewrite Split_app_sep by done.
  destruct Ht as [->|[t ->]].
  - rewrite append_empty_r, Split_no_sep by done. by exists [].
  - rewrite Split_app_sep by done. by eexists.
Qed.

Section RequestValidation.

Context `{External}.


(** X2: in a well-formed state a delete always answers, with 200 exactly
    when the key contains an underscore and with 400 and no change
    otherwise; it never answers 404. Whatever the key, the map, the model
    cards, the registered routes and the number of cells stay as they
    were. *)
Theorem delete_accepted_iff (u : ImportLocationServer) (key : string) :
  wf u ->
  exists u1 r,
    handleCatalogDelete u key = Some (u1, r) /\
    (Status r = http.StatusOK <-> occurs "_" key = true) /\
    (Status r = http.StatusOK \/
     (Status r = http.StatusBadRequest /\ u1 = u /\ length (Errors r) = 1%nat)) /\
    Data r = None /\
    content u1 = content u /\ modelcards u1 = modelcards u /\
    router u1 = router u /\ format u1 = format u /\
    length (heap u1) = length (heap u).
Proof.
  intros [Hv _]. pose proof (wellformed_iff_occurs key "_") as Hocc.
  unfold handleCatalogDelete.
  destruct (String.length key =? 0)%nat eqn:Elen.
  { apply Nat.eqb_eq in Elen. destruct key; [|discriminate].
    eexists _, _. split; [done|]. cbn. split; [|split; [right|]; done].
    split; discriminate. }
  destruct (length (Split key "_") <? 2)%nat eqn:E.
  { apply Nat.ltb_lt in E. eexists _, _. split; [done|]. cbn.
    split; [|split; [right|]; done].
    split; [discriminate|]. intros Ho. apply Hocc in Ho. lia. }
  apply Nat.ltb_ge in E.
  destruct (content u !! _) as [il|] eqn:Hc.
  - destruct (lookup_lt_is_Some_2 (heap u) il (Hv _ _ Hc)) as [c ->].
    eexists _, _. split; [done|]. cbn [Status Data respond content modelcards
      router format heap set_heap].
    split; [split; [intros _; by apply Hocc|done]|].
    split; [by left|]. by rewrite length_insert.
  - eexists _, _. split; [done|]. cbn [Status Data respond].
    split; [split; [intros _; by apply Hocc|done]|].
    split; [by left|done].
Qed.

(** X4: for a model and a version without underscore, the key
    [model_version], with or without further segments, addresses the URI
    that an item read of [(model, version)] looks up: an upsert under that
    key that carries bytes is answered 201, and the item read that follows
    answers 200 with those bytes, for any non-empty format in the path.
    Keys that differ only after the second underscore address one URI. *)
Theorem key_addresses_model_version (u : ImportLocationServer)
    (model version tail f : string) (postBody : PostBody) (bytes : list byte) :
  wf u ->
  occurs "_" model = false ->
  occurs "_" version = false ->
  model <> EmptyString -> version <> EmptyString -> f <> EmptyString ->
  tail = EmptyString \/ (exists t, tail = String "_" t) ->
  Body postBody = Some bytes ->
  keyURI (format u) (model ++ String "_" (version ++ tail)) =
    snd (BuildImportKeyAndURI model version (format u)) /\
  snd (handleCatalogUpsertPost u (model ++ String "_" (version ++ tail)) (inr postBody)) =
    respond http.StatusCreated /\
  itemGet (fst (handleCatalogUpsertPost u (model ++ String "_" (version ++ tail))
                  (inr postBody)))
          (mkModelURI model version f) =
    Some (respondData http.StatusOK "Content-Type: application/json" bytes).
Proof.
  intros Hwf Hm Hv Hm0 Hv0 Hf0 Ht Hb.
  destruct (Split_model_version model version tail Hm Hv Ht) as [more Hs].
  set (key := model ++ String "_" (version ++ tail)) in *.
  assert (Hk : (2 <= length (Split key "_"))%nat) by (rewrite Hs; cbn; lia).
  assert (Huri : keyURI (format u) key = snd (BuildImportKeyAndURI model version (format u)))
    by (unfold keyURI; by rewrite Hs).
  split; [exact Huri|]. split; [by rewrite upsert_wellformed|].
  assert (Hbind : ShouldBindUri (mkModelURI model version f) = true).
  { unfold ShouldBindUri. cbn [Model Version Format].
    apply String.eqb_neq in Hm0, Hv0, Hf0. by rewrite Hm0, Hv0, Hf0. }
  rewrite (itemGet_entry _ _ (mkImportLocation (Some bytes)) Hbind); [done|].
  cbn [Model Version]. rewrite upsert_format, <- Huri.
  rewrite entry_upsert by done. by rewrite decide_True, Hb.
Qed.

End RequestValidation.

Lemma delete_accepted_iff_witness :
  exists u1 r,
    @handleCatalogDelete test_external test_server1 "mnist" = Some (u1, r) /\
    (Status r = http.StatusOK <-> occurs "_" "mnist" = true).
Proof.
  destruct (@delete_accepted_iff test_external test_server1 "mnist" test_server1_wf)
    as (u1 & r & Hd & Hs & _).
  by exists u1, r.
Defined.

Lemma key_addresses_model_version_witness :
  @itemGet test_external
      (fst (@handleCatalogUpsertPost test_external test_server "mnist_v1_rc2"
              (inr (test_body (Some "create") "card" "t1"))))
      (mkModelURI "mnist" "v1" "catalog-info.yaml") =
    Some (respondData http.StatusOK "Content-Type: application/json"
            (list_byte_of_string "create")).
Proof.
  apply (@key_addresses_model_version test_external test_server "mnist" "v1" "_rc2"
           "catalog-info.yaml" (test_body (Some "create") "card" "t1")
           (list_byte_of_string "create")).
  - apply wf_new.
  - reflexivity.
  - reflexivity.
  - discriminate.
  - discriminate.
  - discriminate.
  - right. by exists "rc2".
  - reflexivity.
Defined.

(** ** Reads and writes of the catalog *)

Section CatalogReads.

Context `{External}.

Lemma itemGet_wf (i : ImportLocationServer) (model : ModelURI) :
  wf i -> is_Some (itemGet i model).
Proof.
  intros [Hv _]. unfold itemGet.
  destruct (negb (ShouldBindUri model)); [done|].
  destruct (content i !! _) as [p|] eqn:Hc; [|done].
  destruct (lookup_lt_is_Some_2 (heap i) p (Hv _ _ Hc)) as [c ->]. done.
Qed.

Lemma delete_wf_is_Some (u : ImportLocationServer) (key : string) :
  wf u -> is_Some (handleCatalogDelete u key).
Proof.
  intros [Hv _]. unfold handleCatalogDelete.
  destruct (String.length key =? 0)%nat; [done|].
  destruct (length (Split key "_") <? 2)%nat; [done|].
  destruct (content u !! _) as [p|] eqn:Hc; [|done].
  destruct (lookup_lt_is_Some_2 (heap u) p (Hv _ _ Hc)) as [c ->]. done.
Qed.

Lemma step_returned_step (i i' : ImportLocationServer) :
  step_returned i i' -> step i i'.
Proof.
  intros [Hs|(st & ok & fetched & Hl)]; [by left|].
  right. by exists st, (Returned ok None), fetched.
Qed.

Lemma serving_reachable (i : ImportLocationServer) : serving i -> reachable i.
Proof.
  intros [nf Hr]. exists nf.
  induction Hr as [|x y z Hxy _ IH]; [apply rtc_refl|].
  eapply rtc_l; [|exact IH]. by apply step_returned_step.
Qed.

(** X5: in every state the server comes to through requests and through
    hydrations that returned, that is with [i.lock] free, no handler
    dereferences a nil pointer: the item read, the delete and discovery
    (for every order in which the map may be walked) all produce a
    response, so every request is served, and the state it leaves is
    again such a state. *)
Theorem requests_always_served (i : ImportLocationServer) :
  serving i ->
  (forall model, is_Some (itemGet i model)) /\
  (forall key, is_Some (handleCatalogDelete i key)) /\
  (forall order, order ≡ₚ map_to_list (content i) ->
     is_Some (handleCatalogDiscoveryGet i order)) /\
  (forall req, exists i' r, serve i req i' r /\ serving i').
Proof.
  intros Hs. pose proof (reachable_wf i (serving_reachable i Hs)) as Hwf.
  assert (Hdisc : forall order, order ≡ₚ map_to_list (content i) ->
                    is_Some (handleCatalogDiscoveryGet i order)).
  { intros order Hperm.
    destruct (discovery_spec i order Hwf Hperm) as (l & -> & _). done. }
  assert (Hnext : forall req i' r, serve i req i' r -> serving i').
  { intros req i' r Hserve. destruct Hs as [nf Hr]. exists nf.
    eapply rtc_r; [exact Hr|]. left. by exists req, r. }
  split; [intros model; by apply itemGet_wf|].
  split; [intros key; by apply delete_wf_is_Some|].
  split; [exact Hdisc|].
  intros [|key bound|key|model|key].
  - destruct (Hdisc (map_to_list (content i)) ltac:(done)) as [r Hr'].
    exists i, r. split; [by eapply serve_discovery|].
    eapply Hnext. by eapply serve_discovery.
  - eexists _, _. split; [apply serve_upsert|]. eapply Hnext. apply serve_upsert.
  - destruct (delete_wf_is_Some i key Hwf) as [[i' r] Hd].
    exists i', r. split; [by apply serve_delete|].
    eapply Hnext. by apply serve_delete.
  - destruct (itemGet_wf i model Hwf) as [r Hg].
    exists i, r. split; [by apply serve_item|].
    eapply Hnext. by apply serve_item.
  - eexists _, _. split; [apply serve_modelcard|]. eapply Hnext. apply serve_modelcard.
Qed.

(** X6: the item read and discovery agree. For path parameters that bind,
    the read answers 200, with the payload of the entry, exactly when
    discovery lists the URI it looks up, and 404 exactly when discovery
    does not list it. *)
Theorem item_get_agrees_with_discovery (i : ImportLocationServer)
    (model : ModelURI) (order : list (string * nat)) :
  wf i ->
  ShouldBindUri model = true ->
  order ≡ₚ map_to_list (content i) ->
  exists (l : list string) (r : Response),
    handleCatalogDiscoveryGet i order =
      Some (respondData http.StatusOK "Content-Type: application/json"
              (json_encode (mkDiscovery match l with [] => None | _ :: _ => Some l end))) /\
    itemGet i model = Some r /\
    (snd (BuildImportKeyAndURI (Model model) (Version model) (format i)) ∈ l <->
     exists bytes,
       r = respondData http.StatusOK "Content-Type: application/json" bytes /\
       entry i (snd (BuildImportKeyAndURI (Model model) (Version model) (format i)))
         = Some (mkImportLocation (Some bytes))) /\
    (snd (BuildImportKeyAndURI (Model model) (Version model) (format i)) ∉ l <->
     r = respond http.StatusNotFound).
Proof.
  intros Hwf Hb Hperm. pose proof Hwf as [Hv _].
  destruct (discovery_spec i order Hwf Hperm) as (l & Hl & Hin).
  set (uri := snd (BuildImportKeyAndURI (Model model) (Version model) (format i))) in *.
  exists l.
  destruct (content i !! uri) as [p|] eqn:Hc.
  - destruct (lookup_lt_is_Some_2 (heap i) p (Hv _ _ Hc)) as [[c] Hp].
    assert (He : entry i uri = Some (mkImportLocation c))
      by (unfold entry; by rewrite Hc).
    exists (handleCatalogInfoGet (mkImportLocation c)).
    split; [exact Hl|]. split; [by apply itemGet_entry|].
    rewrite (Hin uri). unfold present. rewrite He.
    destruct c as [bytes|]; cbn.
    + split.
      * split; [intros _; by exists bytes|intros _; by exists bytes].
      * split; [intros Hn; destruct Hn; by exists bytes|discriminate].
    + split.
      * split; [by intros [? ?]|by intros (? & ? & ?)].
      * split; [done|by intros _ [? ?]].
  - exists (respond http.StatusNotFound).
    split; [exact Hl|]. split; [by apply itemGet_no_key|].
    assert (He : entry i uri = None) by (unfold entry; by rewrite Hc).
    rewrite (Hin uri). unfold present. rewrite He. split.
    + split; [by intros [? ?]|by intros (? & ? & ?)].
    + split; [done|by intros _ [? ?]].
Qed.

(** X7: an accepted upsert changes what is present at its own URI only:
    afterwards that URI is present exactly when the body carried bytes, and
    every other URI is present exactly when it was before. *)
Theorem upsert_present (u : ImportLocationServer) (key : string)
    (postBody : PostBody) (uri : string) :
  wf u ->
  (2 <= length (Split key "_"))%nat ->
  present (fst (handleCatalogUpsertPost u key (inr postBody))) uri <->
    (uri = keyURI (format u) key /\ is_Some (Body postBody)) \/
    (uri <> keyURI (format u) key /\ present u uri).
Proof.
  intros Hwf Hk. unfold present. rewrite entry_upsert by done.
  destruct (decide (uri = keyURI (format u) key)) as [->|Hne].
  - split.
    + intros [bytes [= Hb]]. left. by rewrite Hb.
    + intros [[_ [bytes Hb]]|[Hne _]]; [|done]. exists bytes. by rewrite Hb.
  - split.
    + intros Hp. by right.
    + by intros [[? _]|[_ Hp]].
Qed.


(** X18: an upsert, accepted or not, leaves the registered routes and the
    format alone, never writes into a cell that exists, and changes
    neither what any other URI resolves to nor the record of any other
    card key. *)
Theorem upsert_frame (u : ImportLocationServer) (key : string)
    (bound : string + PostBody) :
  wf u ->
  router (fst (handleCatalogUpsertPost u key bound)) = router u /\
  format (fst (handleCatalogUpsertPost u key bound)) = format u /\
  (forall p c, heap u !! p = Some c ->
     heap (fst (handleCatalogUpsertPost u key bound)) !! p = Some c) /\
  (forall uri, uri <> keyURI (format u) key ->
     entry (fst (handleCatalogUpsertPost u key bound)) uri = entry u uri) /\
  (forall cardkey, (forall postBody, bound = inr postBody -> ModelCardKey postBody <> cardkey) ->
     modelcards (fst (handleCatalogUpsertPost u key bound)) !! cardkey =
       modelcards u !! cardkey).
Proof.
  intros Hwf.
  split; [|split; [apply upsert_format|split; [|split]]].
  - unfold handleCatalogUpsertPost.
    destruct (String.length key =? 0)%nat; [done|].
    destruct bound; [done|].
    by destruct (length (Split key "_") <? 2)%nat.
  - intros p c Hp. unfold handleCatalogUpsertPost.
    destruct (String.length key =? 0)%nat; [done|].
    destruct bound; [done|].
    destruct (length (Split key "_") <? 2)%nat; [done|].
    cbn [alloc fst heap set_content set_modelcards set_heap].
    rewrite lookup_app_l; [done|]. by eapply lookup_lt_Some.
  - intros uri Hne. by apply entry_upsert_rejected.
  - intros cardkey Hcard. unfold handleCatalogUpsertPost.
    destruct (String.length key =? 0)%nat; [done|].
    destruct bound as [e|postBody]; [done|].
    destruct (length (Split key "_") <? 2)%nat; [done|].
    cbn [alloc fst modelcards set_content set_modelcards set_heap].
    apply upsertModelCard_other. intros ->. by apply (Hcard postBody).
Qed.

End CatalogReads.

Lemma test_server1_serving : @serving test_external test_server1.
Proof.
  exists EmptyString. eapply rtc_l; [|apply rtc_refl].
  left. eexists _, _. apply serve_upsert.
Defined.

Lemma requests_always_served_witness :
  is_Some (@handleCatalogDelete test_external test_server1 "mnist_v1") /\
  exists i' r, @serve test_external test_server1 (GetItem (mkModelURI "mnist" "v1" "x")) i' r /\
               @serving test_external i'.
Proof.
  destruct (@requests_always_served test_external test_server1 test_server1_serving)
    as (_ & Hdel & _ & Hreq).
  split; [apply Hdel|apply Hreq].
Defined.

Lemma item_get_agrees_with_discovery_witness :
  exists (l : list string) (r : Response),
    @itemGet test_external test_server1 (mkModelURI "mnist" "v1" "x") = Some r /\
    ("/mnist/v1/catalog-info.yaml" ∈ l <->
     exists bytes,
       r = respondData http.StatusOK "Content-Type: application/json" bytes /\
       @entry test_external test_server1 "/mnist/v1/catalog-info.yaml"
         = Some (mkImportLocation (Some bytes))).
Proof.
  destruct (@item_get_agrees_with_discovery test_external test_server1
              (mkModelURI "mnist" "v1" "x") (map_to_list (content test_server1)))
    as (l & r & _ & Hg & Hin & _).
  - exact test_server1_wf.
  - reflexivity.
  - reflexivity.
  - by exists l, r.
Defined.

Lemma upsert_present_witness :
  @present test_external test_server1 "/mnist/v1/catalog-info.yaml".
Proof.
  apply (@upsert_present test_external test_server "mnist_v1"
           (test_body (Some "create") "card" "t1") "/mnist/v1/catalog-info.yaml").
  - apply wf_new.
  - vm_compute. lia.
  - left. split; [reflexivity|]. by eexists.
Defined.


Lemma upsert_frame_witness :
  router (fst (@handleCatalogUpsertPost test_external test_server1 "mnist_v2"
                 (inr (test_body (Some "second") "card" "t2")))) = router test_server1.
Proof.
  apply (@upsert_frame test_external test_server1 "mnist_v2"
           (inr (test_body (Some "second") "card" "t2")) test_server1_wf).
Defined.

(** ** Discovery and the order of the map *)

Section DiscoveryOrder.

Context `{External}.

(** The loop appends the URIs of the entries whose cell has content, in
    the order of the walk. *)
Lemma discoveryLoop_filter (h : list ImportLocation) (order : list (string * nat)) :
  forall d : DicoveryResponse,
    (forall uri p, (uri, p) ∈ order -> (p < length h)%nat) ->
    discoveryLoop h order d =
      Some (mkDiscovery
              match (filter (fun e => is_Some (h !! e.2 ≫= il_content)) order).*1 with
              | [] => Uris d
              | uri :: l => Some (default [] (Uris d) ++ uri :: l)%list
              end).
Proof.
  induction order as [|[uri p] rest IH]; intros d Hv; [by destruct d|].
  assert (Hrest : forall uri0 p0, (uri0, p0) ∈ rest -> (p0 < length h)%nat)
    by (intros uri0 p0 Hin; apply (Hv uri0 p0); by right).
  destruct (lookup_lt_is_Some_2 h p (Hv uri p ltac:(left))) as [[c] Hp].
  cbn [discoveryLoop]. rewrite Hp. cbn [il_content].
  destruct c as [bytes|].
  - rewrite filter_cons_True by (cbn; rewrite Hp; by eexists).
    rewrite (IH _ Hrest). cbn [fmap list_fmap fst Uris default]. do 2 f_equal.
    destruct ((filter _ rest).*1) as [|uri' l]; [done|].
    cbv [id]. by rewrite <- List.app_assoc.
  - rewrite filter_cons_False by (cbn; rewrite Hp; by intros [? ?]).
    by apply IH.
Qed.

(** X9: the order in which the map is walked changes the order of the
    URIs in the answer and nothing else: two walks of the same store list
    the same URIs, each exactly once, and answer [null] together. *)
Theorem discovery_order_irrelevant (i : ImportLocationServer)
    (o1 o2 : list (string * nat)) :
  wf i ->
  o1 ≡ₚ map_to_list (content i) ->
  o2 ≡ₚ map_to_list (content i) ->
  exists l1 l2 : list string,
    handleCatalogDiscoveryGet i o1 =
      Some (respondData http.StatusOK "Content-Type: application/json"
              (json_encode (mkDiscovery match l1 with [] => None | _ :: _ => Some l1 end))) /\
    handleCatalogDiscoveryGet i o2 =
      Some (respondData http.StatusOK "Content-Type: application/json"
              (json_encode (mkDiscovery match l2 with [] => None | _ :: _ => Some l2 end))) /\
    l1 ≡ₚ l2 /\ NoDup l1 /\ NoDup l2.
Proof.
  intros [Hv _] H1 H2.
  assert (Hvalid : forall o, o ≡ₚ map_to_list (content i) ->
            forall uri p, (uri, p) ∈ o -> (p < length (heap i))%nat).
  { intros o Ho uri p Hin. apply (Hv uri p).
    rewrite Ho in Hin. by apply elem_of_map_to_list. }
  assert (Hnodup : forall o, o ≡ₚ map_to_list (content i) ->
            NoDup (filter (fun e => is_Some (heap i !! e.2 ≫= il_content)) o).*1).
  { intros o Ho. apply (sublist_NoDup _ (o.*1)).
    - rewrite Ho. apply NoDup_fst_map_to_list.
    - apply fmap_sublist, sublist_filter. }
  exists (filter (fun e => is_Some (heap i !! e.2 ≫= il_content)) o1).*1,
         (filter (fun e => is_Some (heap i !! e.2 ≫= il_content)) o2).*1.
  split; [|split; [|split; [|split]]].
  - unfold handleCatalogDiscoveryGet.
    rewrite (discoveryLoop_filter _ _ _ (Hvalid o1 H1)). cbn [json_Marshal Uris default].
    by destruct ((filter _ o1).*1).
  - unfold handleCatalogDiscoveryGet.
    rewrite (discoveryLoop_filter _ _ _ (Hvalid o2 H2)). cbn [json_Marshal Uris default].
    by destruct ((filter _ o2).*1).
  - by rewrite H1, H2.
  - by apply Hnodup.
  - by apply Hnodup.
Qed.

End DiscoveryOrder.

Lemma test_server2_wf : @wf test_external test_server2.
Proof. apply wf_upsert, test_server1_wf. Defined.

Lemma discovery_order_irrelevant_witness :
  exists l1 l2 : list string,
    @handleCatalogDiscoveryGet test_external test_server2
        [("/mnist/v1/catalog-info.yaml", 0%nat); ("/mnist/v2/catalog-info.yaml", 1%nat)] =
      Some (respondData http.StatusOK "Content-Type: application/json"
              (@json_encode test_external
                 (mkDiscovery match l1 with [] => None | _ :: _ => Some l1 end))) /\
    @handleCatalogDiscoveryGet test_external test_server2
        [("/mnist/v2/catalog-info.yaml", 1%nat); ("/mnist/v1/catalog-info.yaml", 0%nat)] =
      Some (respondData http.StatusOK "Content-Type: application/json"
              (@json_encode test_external
                 (mkDiscovery match l2 with [] => None | _ :: _ => Some l2 end))) /\
    l1 ≡ₚ l2 /\ NoDup l1.
Proof.
  destruct (@discovery_order_irrelevant test_external test_server2
              [("/mnist/v1/catalog-info.yaml", 0%nat); ("/mnist/v2/catalog-info.yaml", 1%nat)]
              [("/mnist/v2/catalog-info.yaml", 1%nat); ("/mnist/v1/catalog-info.yaml", 0%nat)])
    as (l1 & l2 & H1 & H2 & Hp & Hn & _).
  - exact test_server2_wf.
  - vm_compute. first [reflexivity | apply perm_swap].
  - vm_compute. first [reflexivity | apply perm_swap].
  - exists l1, l2. split; [exact H1|]. split; [exact H2|]. split; [exact Hp|exact Hn].
Defined.

(** ** More on model cards *)

Section ModelCardFacts.

Context `{External}.

Lemma upsertModelCard_keeps_text (cards : gmap string modelCardMetadata)
    (postBody : PostBody) (key : string) (mcm : modelCardMetadata) :
  cards !! key = Some mcm ->
  exists mcm', upsertModelCard cards postBody !! key = Some mcm' /\
               mc_content mcm' = mc_content mcm.
Proof.
  intros Hm. destruct (decide (key = ModelCardKey postBody)) as [->|Hne].
  - rewrite upsertModelCard_lookup, Hm.
    destruct (String.eqb _ _); by eexists.
  - rewrite upsertModelCard_other by done. by exists mcm.
Qed.

Lemma serve_keeps_text (i i' : ImportLocationServer) (req : Request) (r : Response)
    (key : string) (mcm : modelCardMetadata) :
  serve i req i' r ->
  modelcards i !! key = Some mcm ->
  exists mcm', modelcards i' !! key = Some mcm' /\ mc_content mcm' = mc_content mcm.
Proof.
  intros Hs Hm.
  destruct Hs as [| k bound | k i' r Hd | | k]; try (by exists mcm).
  - unfold handleCatalogUpsertPost.
    destruct (String.length k =? 0)%nat; [by exists mcm|].
    destruct bound as [e|postBody]; [by exists mcm|].
    destruct (length (Split k "_") <? 2)%nat; [by exists mcm|].
    cbn [alloc fst modelcards set_content set_modelcards set_heap].
    by apply upsertModelCard_keeps_text.
  - destruct (delete_frame _ _ _ _ Hd) as [->|(il & _ & _ & ->)]; by exists mcm.
  - unfold handleModelCardGet.
    destruct (modelcards i !! k) as [c|] eqn:Hk; [|by exists mcm].
    destruct (negb (needToUpdate c) && _); [by exists mcm|].
    cbn [fst modelcards set_modelcards].
    destruct (decide (key = k)) as [->|Hne].
    + rewrite lookup_insert_eq. eexists. split; [done|]. cbn. congruence.
    + rewrite lookup_insert_ne by done. by exists mcm.
Qed.

(** X10: a model card is never removed and its text is never replaced.
    Whatever requests and hydrations follow, a card key that has a record
    keeps one with the text it was created with; this includes upserts
    that carry a new text and a new token, and deletes of catalog
    entries. *)
Theorem cards_persist (i i' : ImportLocationServer) (key : string)
    (mcm : modelCardMetadata) :
  rtc step i i' ->
  modelcards i !! key = Some mcm ->
  exists mcm', modelcards i' !! key = Some mcm' /\ mc_content mcm' = mc_content mcm.
Proof.
  intros Hsteps. revert mcm.
  induction Hsteps as [|x y z Hxy _ IH]; intros mcm Hm; [by exists mcm|].
  assert (Hy : exists m1, modelcards y !! key = Some m1 /\ mc_content m1 = mc_content mcm).
  { destruct Hxy as [(req & r & Hs)|(st & out & fetched & Hl)].
    - by eapply serve_keeps_text.
    - destruct (loadFromStorage_frame st x) as [Hmc _].
      rewrite Hl in Hmc. cbn [fst] in Hmc. rewrite Hmc. by exists mcm. }
  destruct Hy as (m1 & Hm1 & Ht1).
  destruct (IH m1 Hm1) as (m2 & Hm2 & Ht2).
  exists m2. split; [done|congruence].
Qed.

(** X11: in every state the server reaches the counter of a record lies
    between 0 and 11, so the increment of a read never wraps around. *)
Theorem updateCount_bounded (i : ImportLocationServer) (key : string)
    (mcm : modelCardMetadata) :
  reachable i ->
  modelcards i !! key = Some mcm ->
  (0 <= updateCount mcm <= 11)%Z /\
  wrap_int (updateCount mcm + 1) = (updateCount mcm + 1)%Z.
Proof.
  intros Hr Hm. destruct (reachable_cards_ok i Hr key mcm Hm) as [_ Hb].
  split; [done|]. apply wrap_int_small. lia.
Qed.

(** X12: what a model-card read answers in a reachable state: 404 exactly
    when the key has no record, 304 exactly when its record has been served
    eleven times since its token last changed, and 200 exactly when it has
    been served ten times or fewer. *)
Theorem modelcard_status (i : ImportLocationServer) (key : string) :
  reachable i ->
  (Status (snd (handleModelCardGet i key)) = http.StatusNotFound <->
   modelcards i !! key = None) /\
  (Status (snd (handleModelCardGet i key)) = http.StatusNotModified <->
   exists mcm, modelcards i !! key = Some mcm /\ updateCount mcm = 11%Z) /\
  (Status (snd (handleModelCardGet i key)) = http.StatusOK <->
   exists mcm, modelcards i !! key = Some mcm /\ (updateCount mcm <= 10)%Z).
Proof.
  intros Hr. pose proof (reachable_cards_ok i Hr key) as Hok.
  unfold handleModelCardGet.
  destruct (modelcards i !! key) as [mcm|] eqn:Hm.
  - destruct (Hok mcm eq_refl) as [Hd Hb].
    destruct (needToUpdate mcm) eqn:Ed; cbn [negb andb].
    + specialize (Hd eq_refl). cbn.
      split; [split; discriminate|].
      split; [split; [discriminate|intros (m & [= <-] & ?); lia]|].
      split; [intros _; exists mcm; split; [done|lia]|done].
    + destruct (10 <? updateCount mcm)%Z eqn:E; cbn.
      * apply Z.ltb_lt in E.
        split; [split; discriminate|].
        split; [split; [intros _; exists mcm; split; [done|lia]|done]|].
        split; [discriminate|intros (m & [= <-] & ?); lia].
      * apply Z.ltb_ge in E.
        split; [split; discriminate|].
        split; [split; [discriminate|intros (m & [= <-] & ?); lia]|].
        split; [intros _; exists mcm; split; [done|lia]|done].
  - cbn. split; [done|].
    split; (split; [discriminate|by intros (m & ? & _)]).
Qed.

(** X19: an upsert that repeats the stored token is invisible to the
    readers of the card store: every model-card read answers afterwards
    what it would have answered before, so a throttled record stays
    throttled. *)
Theorem same_token_upsert_reads (u : ImportLocationServer) (key : string)
    (postBody : PostBody) (mcm : modelCardMetadata) (cardkey : string) :
  modelcards u !! ModelCardKey postBody = Some mcm ->
  LastUpdateTimeSinceEpoch postBody = lastUpdateTimeSinceEpoch mcm ->
  snd (handleModelCardGet (fst (handleCatalogUpsertPost u key (inr postBody))) cardkey) =
    snd (handleModelCardGet u cardkey) /\
  modelcards (fst (handleModelCardGet
                     (fst (handleCatalogUpsertPost u key (inr postBody))) cardkey)) =
    modelcards (fst (handleModelCardGet u cardkey)).
Proof.
  intros Hm Ht.
  assert (Heq : modelcards (fst (handleCatalogUpsertPost u key (inr postBody)))
                = modelcards u).
  { unfold handleCatalogUpsertPost.
    destruct (String.length key =? 0)%nat; [done|].
    destruct (length (Split key "_") <? 2)%nat; [done|].
    cbn [alloc fst modelcards set_content set_modelcards set_heap].
    by apply (upsertModelCard_same_token _ _ mcm). }
  unfold handleModelCardGet. rewrite Heq.
  destruct (modelcards u !! cardkey) as [c|]; [|done].
  destruct (negb (needToUpdate c) && _); [done|].
  cbn [fst snd modelcards set_modelcards]. done.
Qed.

End ModelCardFacts.

Lemma cards_persist_witness :
  exists mcm',
    modelcards
      (fst (@handleCatalogUpsertPost test_external test_server1 "mnist_v1"
              (inr (test_body (Some "update") "new card" "t2")))) !! "foo" = Some mcm' /\
    mc_content mcm' = mc_content test_card.
Proof.
  apply (@cards_persist test_external test_server1).
  - eapply rtc_l; [|apply rtc_refl]. left. eexists _, _. apply serve_upsert.
  - vm_compute. reflexivity.
Defined.

Lemma updateCount_bounded_witness :
  (0 <= updateCount test_card <= 11)%Z /\
  wrap_int (updateCount test_card + 1) = (updateCount test_card + 1)%Z.
Proof.
  apply (@updateCount_bounded test_external test_server1 "foo" test_card
           test_server1_reachable).
  vm_compute. reflexivity.
Defined.

Lemma modelcard_status_witness :
  Status (snd (@handleModelCardGet test_external test_server1 "bar")) =
    http.StatusNotFound <->
  modelcards test_server1 !! "bar" = None.
Proof.
  apply (@modelcard_status test_external test_server1 "bar" test_server1_reachable).
Defined.

Lemma same_token_upsert_reads_witness :
  snd (@handleModelCardGet test_external
         (fst (@handleCatalogUpsertPost test_external test_server1 "mnist_v1"
                 (inr (test_body (Some "update") "new card" "t1")))) "foo") =
    snd (@handleModelCardGet test_external test_server1 "foo").
Proof.
  apply (@same_token_upsert_reads test_external test_server1 "mnist_v1"
           (test_body (Some "update") "new card" "t1") test_card "foo").
  - vm_compute. reflexivity.
  - reflexivity.
Defined.

(** ** More on hydration *)

Section HydrationRuns.

Context `{External}.

Lemma loadLoop_step_malformed (st : BridgeStorageRESTClient) (held : bool)
    (i : ImportLocationServer) (key : string) (rest : list string) :
  ~ (2 <= length (Split key "_"))%nat ->
  loadLoop st held i (key :: rest) = loadLoop st held i rest.
Proof. intros Hk. apply loadLoop_skips_malformed. lia. Qed.

(** The first key that is fetched successfully while its path has a
    handler already: the map is written and [i.router.GET] panics. *)
Lemma loadLoop_first_insert_panics (st : BridgeStorageRESTClient)
    (i : ImportLocationServer) (key : string) (rest : list string) :
  (2 <= length (Split key "_"))%nat ->
  err (FetchModel st key) = None ->
  rc (FetchModel st key) = http.StatusOK ->
  keyURI (format i) key ∈ (router i).*1 ->
  loadLoop st false i (key :: rest) = (written st i key, Panicked, [key]).
Proof.
  intros Hk He Hrc Hreg. cbn [loadLoop].
  destruct (length (Split key "_") <? 2)%nat eqn:E; [apply Nat.ltb_lt in E; lia|].
  rewrite He, Hrc.
  rewrite bool_decide_eq_false_2 by (by intros [? ?]).
  cbn [Z.eqb Pos.eqb http.StatusOK negb alloc].
  rewrite bool_decide_eq_true_2 by exact Hreg.
  reflexivity.
Qed.

Lemma loadLoop_step_wellformed (st : BridgeStorageRESTClient) (held : bool)
    (i : ImportLocationServer) (key : string) (rest : list string) :
  (2 <= length (Split key "_"))%nat ->
  loadLoop st held i (key :: rest) =
    if fetched_ok st key
    then if held then (i, Blocked, [key])
         else if bool_decide (keyURI (format i) key ∈ (router i).*1)
              then (written st i key, Panicked, [key])
              else (fst (fst (loadLoop st true (stored st i key) rest)),
                    snd (fst (loadLoop st true (stored st i key) rest)),
                    key :: snd (loadLoop st true (stored st i key) rest))
    else (i, Returned false None, [key]).
Proof.
  intros Hk. unfold fetched_ok.
  destruct (bool_decide (is_Some (err (FetchModel st key)))) eqn:Ee.
  { apply bool_decide_eq_true in Ee. cbn [negb andb].
    apply loadLoop_fetch_failure; [done|by left]. }
  apply bool_decide_eq_false in Ee. cbn [negb andb].
  assert (He : err (FetchModel st key) = None).
  { destruct (err (FetchModel st key)); [destruct Ee; by eexists|done]. }
  destruct (rc (FetchModel st key) =? http.StatusOK)%Z eqn:Erc.
  - apply Z.eqb_eq in Erc. destruct held.
    + by apply loadLoop_blocks_when_held.
    + destruct (bool_decide (keyURI (format i) key ∈ (router i).*1)) eqn:Er.
      * apply bool_decide_eq_true in Er. by apply loadLoop_first_insert_panics.
      * apply bool_decide_eq_false in Er. by rewrite loadLoop_first_insert.
  - apply Z.eqb_neq in Erc. apply loadLoop_fetch_failure; [done|by right].
Qed.

(** With the lock held, the loop ends at the first well-formed key. *)
Lemma loadLoop_held_spec (st : BridgeStorageRESTClient) (i : ImportLocationServer)
    (keys : list string) :
  loadLoop st true i keys =
    match filter (fun k => (2 <= length (Split k "_"))%nat) keys with
    | [] => (i, Returned true None, [])
    | k :: _ => (i, if fetched_ok st k then Blocked else Returned false None, [k])
    end.
Proof.
  induction keys as [|key rest IH]; [done|].
  destruct (decide (2 <= length (Split key "_"))%nat) as [Hk|Hk].
  - rewrite filter_cons_True, loadLoop_step_wellformed by done.
    by destruct (fetched_ok st key).
  - by rewrite filter_cons_False, loadLoop_step_malformed.
Qed.

(** With the lock free, the loop is decided by the first two well-formed
    keys and by whether the path of the first is registered. *)
Lemma loadLoop_free_spec (st : BridgeStorageRESTClient) (i : ImportLocationServer)
    (keys : list string) :
  loadLoop st false i keys =
    match filter (fun k => (2 <= length (Split k "_"))%nat) keys with
    | [] => (i, Returned true None, [])
    | k :: more =>
        if fetched_ok st k
        then if bool_decide (keyURI (format i) k ∈ (router i).*1)
             then (written st i k, Panicked, [k])
             else match more with
                  | [] => (stored st i k, Returned true None, [k])
                  | k2 :: _ =>
                      (stored st i k,
                       if fetched_ok st k2 then Blocked else Returned false None,
                       [k; k2])
                  end
        else (i, Returned false None, [k])
    end.
Proof.
  induction keys as [|key rest IH]; [done|].
  destruct (decide (2 <= length (Split key "_"))%nat) as [Hk|Hk].
  - rewrite filter_cons_True, loadLoop_step_wellformed by done.
    destruct (fetched_ok st key); [|done].
    destruct (bool_decide (keyURI (format i) key ∈ (router i).*1)); [done|].
    rewrite loadLoop_held_spec.
    by destruct (filter _ rest) as [|k2 more].
  - by rewrite filter_cons_False, loadLoop_step_malformed.
Qed.


(** X14: hydration fetches the well-formed keys in the order of the
    listing, without leaving one out, and stops somewhere: a key with
    fewer than two segments is never handed to [FetchModel], and every key
    fetched but the last was fetched successfully. *)
Theorem hydration_fetches_in_order (st : BridgeStorageRESTClient)
    (i : ImportLocationServer) :
  snd (loadFromStorage st i) `prefix_of`
    filter (fun k => (2 <= length (Split k "_"))%nat) (payload (ListModelsKeys st)) /\
  Forall (fun k => (2 <= length (Split k "_"))%nat) (snd (loadFromStorage st i)) /\
  (forall k k' rest, snd (loadFromStorage st i) = k :: k' :: rest ->
     fetched_ok st k = true).
Proof.
  unfold loadFromStorage.
  destruct (bool_decide _); [cbn; split; [apply prefix_nil|by split]|].
  destruct (negb _); [cbn; split; [apply prefix_nil|by split]|].
  rewrite loadLoop_free_spec.
  pose proof (Forall_forall (fun k => (2 <= length (Split k "_"))%nat)
                (filter (fun k => (2 <= length (Split k "_"))%nat)
                   (payload (ListModelsKeys st)))) as [_ Hall].
  specialize (Hall ltac:(intros x Hx; by apply list_elem_of_filter in Hx as [? _])).
  destruct (filter _ (payload (ListModelsKeys st))) as [|k more].
  { cbn. split; [done|by split]. }
  inversion Hall as [|? ? Hk Hmore]; subst.
  destruct (fetched_ok st k) eqn:Ek.
  - destruct (bool_decide (keyURI (format i) k ∈ (router i).*1)).
    { cbn [snd]. split; [by exists more|]. split; [by repeat constructor|done]. }
    destruct more as [|k2 more]; cbn [snd].
    + split; [by exists []|]. split; [by repeat constructor|done].
    + inversion Hmore as [|? ? Hk2 _]; subst.
      split; [by exists more|]. split; [by repeat constructor|].
      intros ? ? ? Heq. by simplify_eq.
  - cbn [snd]. split; [by exists more|]. split; [by repeat constructor|done].
Qed.


End HydrationRuns.

(** ** The cells behind the registered routes *)

Section RegisteredCells.

Context `{External}.

Lemma loadFromStorage_state (st : BridgeStorageRESTClient) (i : ImportLocationServer) :
  fst (fst (loadFromStorage st i)) = i \/
  exists key, fst (fst (loadFromStorage st i)) = stored st i key \/
              fst (fst (loadFromStorage st i)) = written st i key.
Proof.
  unfold loadFromStorage.
  destruct (bool_decide _); [by left|].
  destruct (negb _); [by left|].
  rewrite loadLoop_free_spec.
  destruct (filter _ _) as [|k more]; [by left|].
  destruct (fetched_ok st k); [|by left].
  destruct (bool_decide (_ ∈ _)); [right; exists k; by right|].
  destruct more; right; exists k; by left.
Qed.

(** What one step can do to the heap and to the routes: cells are added
    at the end, a cell that exists keeps its content or loses it, and
    routes are only added, each bound to a cell that exists. *)
Lemma step_cells (i i' : ImportLocationServer) :
  step i i' ->
  (length (heap i) <= length (heap i'))%nat /\
  (forall p c, heap i !! p = Some c ->
     heap i' !! p = Some c \/ heap i' !! p = Some (mkImportLocation None)) /\
  (forall uri p, (uri, p) ∈ router i -> (uri, p) ∈ router i') /\
  (routes_ok i -> routes_ok i').
Proof.
  intros [(req & r & Hs)|(st & out & fetched & Hl)].
  - destruct Hs as [| key bound | key i' r Hd | | key].
    + by repeat split; try left.
    + unfold handleCatalogUpsertPost.
      destruct (String.length key =? 0)%nat; [by repeat split; try left|].
      destruct bound as [e|postBody]; [by repeat split; try left|].
      destruct (length (Split key "_") <? 2)%nat; [by repeat split; try left|].
      cbn [alloc fst heap router set_content set_modelcards set_heap].
      split; [rewrite length_app; lia|].
      split; [intros p c Hp; left; rewrite lookup_app_l; [done|by eapply lookup_lt_Some]|].
      split; [done|].
      intros Hok uri p Hin. unfold routes_ok in Hok.
      cbn [router heap set_content set_modelcards set_heap] in *.
      rewrite length_app. specialize (Hok uri p Hin). lia.
    + destruct (delete_frame _ _ _ _ Hd) as [->|(il & _ & _ & ->)];
        [by repeat split; try left|].
      cbn [heap router set_heap].
      split; [by rewrite length_insert|].
      split.
      { intros p c Hp. destruct (decide (p = il)) as [->|Hne].
        - right. apply list_lookup_insert_eq. by eapply lookup_lt_Some.
        - left. by rewrite list_lookup_insert_ne. }
      split; [done|].
      intros Hok uri p Hin. cbn [router heap set_heap] in *.
      rewrite length_insert. by apply (Hok uri).
    + by repeat split; try left.
    + unfold handleModelCardGet.
      destruct (modelcards i !! key) as [c0|]; [|by repeat split; try left].
      destruct (negb (needToUpdate c0) && _); by repeat split; try left.
  - pose proof (loadFromStorage_state st i) as Hst. rewrite Hl in Hst. cbn [fst] in Hst.
    destruct Hst as [->|[key [->| ->]]]; [by repeat split; try left| |].
    + cbn [stored heap router].
      split; [rewrite length_app; lia|].
      split; [intros p c Hp; left; rewrite lookup_app_l; [done|by eapply lookup_lt_Some]|].
      split; [intros uri p Hin; apply elem_of_app; by left|].
      intros Hok uri p Hin. cbn [stored router heap] in *.
      apply elem_of_app in Hin as [Hin|Hin%list_elem_of_singleton];
        rewrite length_app; cbn [length].
      * specialize (Hok uri p Hin). lia.
      * injection Hin as -> ->. lia.
    + cbn [written heap router].
      split; [rewrite length_app; lia|].
      split; [intros p c Hp; left; rewrite lookup_app_l; [done|by eapply lookup_lt_Some]|].
      split; [done|].
      intros Hok uri p Hin. cbn [written router heap] in *.
      rewrite length_app. specialize (Hok uri p Hin). lia.
Qed.

Lemma steps_routes_ok (i i' : ImportLocationServer) :
  rtc step i i' -> routes_ok i -> routes_ok i'.
Proof.
  induction 1 as [|x y z Hxy _ IH]; [done|].
  intros Hx. apply IH. by apply (step_cells x y Hxy).
Qed.

Lemma reachable_routes_ok (i : ImportLocationServer) : reachable i -> routes_ok i.
Proof.
  intros [nf Hr]. eapply steps_routes_ok; [exact Hr|].
  intros uri p Hin. cbn in Hin. by apply elem_of_nil in Hin.
Qed.

(** X16: a route that hydration has registered stays registered, bound to
    the cell hydration allocated for it. That cell exists, and whatever
    requests and hydrations follow, it holds either the content it has now
    or none: no upsert ever reaches it. *)
Theorem registered_cell_never_updated (i i' : ImportLocationServer)
    (uri : string) (p : nat) :
  reachable i ->
  (uri, p) ∈ router i ->
  rtc step i i' ->
  exists c,
    heap i !! p = Some c /\
    (uri, p) ∈ router i' /\
    (heap i' !! p = Some c \/ heap i' !! p = Some (mkImportLocation None)).
Proof.
  intros Hr Hin Hsteps.
  destruct (lookup_lt_is_Some_2 (heap i) p (reachable_routes_ok i Hr uri p Hin)) as [c Hc].
  exists c. split; [done|]. clear Hr.
  revert c Hc Hin. induction Hsteps as [|x y z Hxy _ IH]; intros c Hc Hin; [by split; [|left]|].
  destruct (step_cells x y Hxy) as (_ & Hcell & Hroute & _).
  destruct (Hcell p c Hc) as [Hy|Hy].
  - destruct (IH c Hy (Hroute _ _ Hin)) as [Hr' Hz]. by split.
  - destruct (IH _ Hy (Hroute _ _ Hin)) as [Hr' Hz]. split; [done|].
    destruct Hz as [Hz|Hz]; by right.
Qed.

(** X17: what a delete does to the cell behind a registered route. While
    the map still points to that cell, the delete empties it, so the
    registered handler answers 404 as well. After an upsert of the same
    key the map points to a new cell, and a delete empties that one only:
    the cell behind the route keeps its content while the URI resolves to
    an entry without payload. *)
Theorem delete_and_registered_cell (u : ImportLocationServer) (key : string)
    (p : nat) (c : ImportLocation) :
  wf u ->
  (keyURI (format u) key, p) ∈ router u ->
  heap u !! p = Some c ->
  (2 <= length (Split key "_"))%nat ->
  (content u !! keyURI (format u) key = Some p ->
   exists u1, handleCatalogDelete u key = Some (u1, respond http.StatusOK) /\
              heap u1 !! p = Some (mkImportLocation None) /\
              handleCatalogInfoGet <$> heap u1 !! p = Some (respond http.StatusNotFound)) /\
  (forall postBody,
   exists u1,
     handleCatalogDelete (fst (handleCatalogUpsertPost u key (inr postBody))) key =
       Some (u1, respond http.StatusOK) /\
     heap u1 !! p = Some c /\
     (keyURI (format u) key, p) ∈ router u1 /\
     entry u1 (keyURI (format u) key) = Some (mkImportLocation None)).
Proof.
  intros Hwf Hin Hc Hk. pose proof (lookup_lt_Some _ _ _ Hc) as Hlt. split.
  - intros Hmap. rewrite delete_wellformed by done. rewrite Hmap, Hc.
    eexists. split; [done|]. cbn [heap set_heap].
    rewrite list_lookup_insert_eq by done. by split.
  - intros postBody. rewrite delete_wellformed by done.
    rewrite upsert_format, upsert_wellformed by done. cbn [fst content heap].
    rewrite lookup_insert_eq.
    rewrite lookup_app_r, Nat.sub_diag by done. cbn [lookup list_lookup].
    eexists. split; [done|]. cbn [heap router set_heap]. split; [|split; [done|]].
    + rewrite list_lookup_insert_ne by lia. by rewrite lookup_app_l.
    + unfold entry. cbn [content heap set_heap]. rewrite lookup_insert_eq.
      cbn [mbind option_bind]. apply list_lookup_insert_eq.
      rewrite length_app. cbn [length]. lia.
Qed.

End RegisteredCells.

Lemma test_server_hydrated1_reachable : @reachable test_external test_server_hydrated1.
Proof.
  exists EmptyString. eapply rtc_l; [|apply rtc_refl].
  right. exists test_storage, Blocked, ["mnist_v1"; "mnist_v2"].
  vm_compute. reflexivity.
Defined.

Lemma test_server_hydrated1_wf : @wf test_external test_server_hydrated1.
Proof. apply reachable_wf, test_server_hydrated1_reachable. Defined.

Lemma registered_cell_never_updated_witness :
  exists c,
    heap test_server_hydrated1 !! 0%nat = Some c /\
    ("/mnist/v1/catalog-info.yaml", 0%nat) ∈
      router (fst (@handleCatalogUpsertPost test_external test_server_hydrated1 "mnist_v1"
                     (inr (test_body (Some "update") "card" "t1")))) /\
    (heap (fst (@handleCatalogUpsertPost test_external test_server_hydrated1 "mnist_v1"
                  (inr (test_body (Some "update") "card" "t1")))) !! 0%nat = Some c \/
     heap (fst (@handleCatalogUpsertPost test_external test_server_hydrated1 "mnist_v1"
                  (inr (test_body (Some "update") "card" "t1")))) !! 0%nat =
       Some (mkImportLocation None)).
Proof.
  apply (@registered_cell_never_updated test_external test_server_hydrated1).
  - exact test_server_hydrated1_reachable.
  - left.
  - eapply rtc_l; [|apply rtc_refl]. left. eexists _, _. apply serve_upsert.
Defined.

Lemma delete_and_registered_cell_witness :
  exists u1,
    @handleCatalogDelete test_external
        (fst (@handleCatalogUpsertPost test_external test_server_hydrated1 "mnist_v1"
                (inr (test_body (Some "update") "card" "t1")))) "mnist_v1" =
      Some (u1, respond http.StatusOK) /\
    heap u1 !! 0%nat = Some (mkImportLocation (Some (list_byte_of_string "mnist_v1"))).
Proof.
  destruct (@delete_and_registered_cell test_external test_server_hydrated1 "mnist_v1"
              0%nat (mkImportLocation (Some (list_byte_of_string "mnist_v1"))))
    as [_ Hb].
  - exact test_server_hydrated1_wf.
  - left.
  - reflexivity.
  - vm_compute. lia.
  - destruct (Hb (test_body (Some "update") "card" "t1")) as (u1 & Hd & Hp & _).
    exists u1. split; [exact Hd|exact Hp].
Defined.

(** ** Hydration followed by a read *)

Section HydratedReads.

Context `{External}.


End HydratedReads.

